(** * pysteps.optflow.lucaskanade: a shallow embedding and its properties

    The module estimates a dense motion field from a sequence of
    precipitation images: Shi-Tomasi corners are tracked with the pyramidal
    Lucas-Kanade method (OpenCV), the sparse vectors are filtered by an
    inter-quartile rule, declustered by grid-cell medians and interpolated
    to the full grid with a k-nearest-neighbour radial basis function.

    Arrays of numbers are lists of IEEE-754 binary64 values (NumPy's default
    dtype, here Rocq's primitive [float]); Python exceptions are values of
    [exn] carried by the [result] monad.  The functions of OpenCV and of the
    C math library that have no counterpart in Rocq are variables of the
    sections that use them. *)

From Stdlib Require Import ZArith List Bool Lia Floats Uint63 Ascii String Sorted Permutation.
From stdpp Require Import base option list gmap strings pretty.
Import ListNotations.

Local Open Scope string_scope.
Local Open Scope list_scope.
Local Open Scope Z_scope.

(** ** Python exceptions and the error monad *)

Inductive exn : Type :=
| ValueError (msg : string)
| IndexError
| TypeError
| AxisError
| UnboundLocalError (var : string).

Inductive result (A : Type) : Type :=
| Ok (a : A)
| Raise (e : exn).
Arguments Ok {A} a.
Arguments Raise {A} e.

Definition bind {A B} (m : result A) (f : A -> result B) : result B :=
  match m with
  | Ok a => f a
  | Raise e => Raise e
  end.

#[global] Instance result_ret : MRet result := fun A a => Ok a.
#[global] Instance result_bind : MBind result := fun A B f m => bind m f.

Definition is_ok {A} (m : result A) : bool :=
  match m with Ok _ => true | Raise _ => false end.

Definition raises {A} (m : result A) : Prop := exists e, m = Raise e.

Fixpoint mapM {A B} (f : A -> result B) (l : list A) : result (list B) :=
  match l with
  | [] => Ok []
  | a :: t => b ← f a; bs ← mapM f t; Ok (b :: bs)
  end.

(** ** binary64 helpers *)

Module F64.

Definition of_Z (z : Z) : float :=
  if z <? 0 then PrimFloat.opp (PrimFloat.of_uint63 (Uint63.of_Z (- z)))
  else PrimFloat.of_uint63 (Uint63.of_Z z).

Definition sq (x : float) : float := PrimFloat.mul x x.

(** [np.floor], read as an integer (used on finite values only; a value
    that is not finite is sent to 0). *)
Definition floor (x : float) : Z :=
  match Prim2SF x with
  | SpecFloat.S754_finite s m e =>
      let n := if 0 <=? e then Z.pos m * 2 ^ e else Z.pos m / 2 ^ (- e) in
      let exact := if 0 <=? e then true else Z.pos m mod 2 ^ (- e) =? 0 in
      if s then (if exact then - n else - n - 1) else n
  | _ => 0
  end.

(** The 64 bits of a value, as NumPy sees them through a [np.void] view. *)
Definition bits (x : float) : Z :=
  match Prim2SF x with
  | SpecFloat.S754_zero s => if s then 2 ^ 63 else 0
  | SpecFloat.S754_infinity s => (if s then 2 ^ 63 else 0) + 2047 * 2 ^ 52
  | SpecFloat.S754_nan => 2047 * 2 ^ 52 + 2 ^ 51
  | SpecFloat.S754_finite s m e =>
      (if s then 2 ^ 63 else 0) +
      (if Z.pos m <? 2 ^ 52 then Z.pos m
       else (e + 1075) * 2 ^ 52 + (Z.pos m - 2 ^ 52))
  end.

(** [np.sum] over one row: the plain loop NumPy runs on short rows. *)
Definition sum (l : list float) : float :=
  fold_left PrimFloat.add l PrimFloat.zero.

(** [np.min((a, b))] and [np.max((a, b))]: a NaN wins. *)
Definition min2 (a b : float) : float :=
  if PrimFloat.is_nan a then a
  else if PrimFloat.is_nan b then b
  else if PrimFloat.ltb b a then b else a.

Definition max2 (a b : float) : float :=
  if PrimFloat.is_nan a then a
  else if PrimFloat.is_nan b then b
  else if PrimFloat.ltb a b then b else a.

Definition amin (l : list float) : float :=
  match l with
  | [] => PrimFloat.nan
  | a :: t => fold_left min2 t a
  end.

Definition amax (l : list float) : float :=
  match l with
  | [] => PrimFloat.nan
  | a :: t => fold_left max2 t a
  end.

(** Sorting, as [np.sort] does on values without NaN. *)
Fixpoint insert (x : float) (l : list float) : list float :=
  match l with
  | [] => [x]
  | y :: t => if PrimFloat.ltb x y then x :: l else y :: insert x t
  end.

Definition sort (l : list float) : list float := fold_right insert [] l.

(** [np.median]: NaN on an empty array or when a NaN is present, the middle
    element, or the mean of the two middle elements. *)
Definition median (l : list float) : float :=
  let n := length l in
  if (n =? 0)%nat then PrimFloat.nan
  else if existsb PrimFloat.is_nan l then PrimFloat.nan
  else
    let s := sort l in
    if Nat.odd n then nth (n / 2)%nat s PrimFloat.nan
    else PrimFloat.div
           (PrimFloat.add (nth (n / 2 - 1)%nat s PrimFloat.nan)
                          (nth (n / 2)%nat s PrimFloat.nan))
           PrimFloat.two.

End F64.

(** ** Strings: [str.lower] on ASCII *)

Definition lower_ascii (c : ascii) : ascii :=
  let n := nat_of_ascii c in
  if ((65 <=? n) && (n <=? 90))%nat then ascii_of_nat (n + 32) else c.

Fixpoint lower (s : string) : string :=
  match s with
  | EmptyString => EmptyString
  | String c t => String (lower_ascii c) (lower t)
  end.

(** ** NumPy and SciPy building blocks *)

(** [a[i]] on a one-dimensional array. *)
Definition getitem {A} (a : list A) (i : nat) : result A :=
  match nth_error a i with
  | Some x => Ok x
  | None => Raise IndexError
  end.

(** [a[i0:i0+len(vals)] = vals]. *)
Definition setslice {A} (a : list A) (i0 : nat) (vals : list A) : list A :=
  firstn i0 a ++ vals ++ skipn (i0 + length vals) a.

Definition arange (n : nat) : list Z := map Z.of_nat (seq 0 n).

(** Cut [l] into consecutive pieces of the given sizes. *)
Fixpoint split_sizes {A} (l : list A) (sizes : list nat) : list (list A) :=
  match sizes with
  | [] => []
  | s :: rest => firstn s l :: split_sizes (skipn s l) rest
  end.

(** [np.array_split(ary, n, 0)] for an integer [n]: [len % n] pieces of
    [len // n + 1] rows, then pieces of [len // n] rows. *)
Definition array_split {A} (ary : list A) (nsections : Z) : result (list (list A)) :=
  if nsections <=? 0 then Raise (ValueError "number sections must be larger than 0.")
  else
    let Ntotal := Z.of_nat (length ary) in
    let Neach_section := Ntotal / nsections in
    let extras := Ntotal mod nsections in
    let section_sizes :=
      repeat (Z.to_nat (Neach_section + 1)) (Z.to_nat extras) ++
      repeat (Z.to_nat Neach_section) (Z.to_nat (nsections - extras)) in
    Ok (split_sizes ary section_sizes).

(** [a.reshape(rows, cols)] as a list of rows. *)
Definition reshape2 {A} (rows cols : nat) (a : list A) : list (list A) :=
  map (fun i => firstn cols (skipn (i * cols) a)) (seq 0 rows).

Definition point : Type := float * float.

(** Euclidean distance, as [scipy.spatial.distance] and the k-d tree
    compute it. *)
Definition euclidean (p q : point) : float :=
  PrimFloat.sqrt (PrimFloat.add (F64.sq (PrimFloat.sub p.1 q.1))
                                (F64.sq (PrimFloat.sub p.2 q.2))).

(** [scipy.spatial.distance.pdist(points)]: the distances of the pairs
    [i < j], row by row. *)
Fixpoint pdist (points : list point) : list float :=
  match points with
  | [] => []
  | p :: rest => map (euclidean p) rest ++ pdist rest
  end.

(** [scipy.spatial.cKDTree]: the tree answers nearest-neighbour queries on
    the points it was built from; only those answers are modelled. *)
Record cKDTree : Type := { tree_data : list point }.

Fixpoint insert_neighbour (c : float * nat) (l : list (float * nat))
  : list (float * nat) :=
  match l with
  | [] => [c]
  | c' :: t => if PrimFloat.ltb c.1 c'.1 then c :: l
               else c' :: insert_neighbour c t
  end.

(** All points of the tree with their distance to [q], nearest first.
    SciPy does not say which of two equally distant points comes first; here
    it is the one of lowest index. *)
Definition neighbours (tree : cKDTree) (q : point) : list (float * nat) :=
  fold_left (fun acc c => insert_neighbour c acc)
            (imap (fun i p => (euclidean p q, i)) (tree_data tree)) [].

(** The result of [tree.query(x, k)]: with [k == 1] SciPy squeezes the last
    axis and returns one-dimensional arrays. *)
Inductive knn : Type :=
| Knn1 (d : list float) (inds : list nat)
| Knn2 (d : list (list float)) (inds : list (list nat)).

(** The [k] nearest points; a missing neighbour has infinite distance and
    index [n], the number of points. *)
Definition query_row (tree : cKDTree) (k : nat) (q : point) : list (float * nat) :=
  let found := firstn k (neighbours tree q) in
  found ++ repeat (PrimFloat.infinity, length (tree_data tree)) (k - length found).

Definition query1 (tree : cKDTree) (q : point) : float * nat :=
  nth 0 (query_row tree 1 q) (PrimFloat.infinity, length (tree_data tree)).

(** [tree.query(x, k)] for an integer [k]; a [k] below 1 is refused. *)
Definition query (tree : cKDTree) (x : list point) (k : Z) : result knn :=
  if k <? 1 then Raise (ValueError "k must be at least 1")
  else if k =? 1 then
    let r := map (query1 tree) x in Ok (Knn1 (map fst r) (map snd r))
  else
    let r := map (query_row tree (Z.to_nat k)) x in
    Ok (Knn2 (map (map fst) r) (map (map snd) r)).

(** [w * a] on two rows, with NumPy's broadcasting of a row of length 1. *)
Definition broadcast_mul (w a : list float) : result (list float) :=
  if (length w =? length a)%nat then Ok (zip_with PrimFloat.mul w a)
  else if (length w =? 1)%nat then
    Ok (map (PrimFloat.mul (nth 0 w PrimFloat.nan)) a)
  else if (length a =? 1)%nat then
    Ok (map (fun wi => PrimFloat.mul wi (nth 0 a PrimFloat.nan)) w)
  else Raise (ValueError "operands could not be broadcast together").

Fixpoint mapM2 {A B C} (f : A -> B -> result C) (l : list A) (l' : list B)
  : result (list C) :=
  match l, l' with
  | a :: t, b :: t' => c ← f a b; cs ← mapM2 f t t'; Ok (c :: cs)
  | _, _ => Ok []
  end.

(** ** interpolate_sparse_vectors *)

(** The parameter [k]: an integer or the string ["all"]. *)
Inductive neighbour_count : Type :=
| KInt (k : Z)
| KAll.

(** What the function returns: the coordinate grids [X], [Y] and the two
    layers of [UV], each a list of rows. *)
Record dense_field : Type := {
  X : list (list Z);
  Y : list (list Z);
  U : list (list float);
  V : list (list float)
}.

(** The variables the chunk loop updates. *)
Record loop_state : Type := {
  st_U : list float;
  st_V : list float;
  st_i0 : nat;
  st_epsilon : option float
}.

Definition grid_point (g : Z * Z) : point := (F64.of_Z g.1, F64.of_Z g.2).

(** [np.column_stack((x, y))] on two columns. *)
Definition column_stack (x y : list float) : result (list point) :=
  if (length x =? length y)%nat then Ok (combine x y)
  else Raise (ValueError "all the input array dimensions must match exactly").

(** [np.meshgrid(xgrid, ygrid)] and the row-major list of grid points. *)
Definition meshgrid_X (rows cols : nat) : list (list Z) :=
  map (fun _ => arange cols) (arange rows).
Definition meshgrid_Y (rows cols : nat) : list (list Z) :=
  map (fun i => map (fun _ => i) (arange cols)) (arange rows).
Definition grid_points (rows cols : nat) : list (Z * Z) :=
  combine (concat (meshgrid_X rows cols)) (concat (meshgrid_Y rows cols)).

Section Interpolation.

(** The exponential of the C library, behind [np.exp]. *)
Variable np_exp : float -> float.

(** The radial basis function chosen by [function.lower()]. *)
Definition weight_function (function : string) (epsilon : float)
  : result (float -> float) :=
  if String.eqb (lower function) "inverse" then
    Ok (fun d => PrimFloat.div PrimFloat.one
                   (PrimFloat.sqrt
                      (PrimFloat.add (F64.sq (PrimFloat.div d epsilon)) PrimFloat.one)))
  else if String.eqb (lower function) "gaussian" then
    Ok (fun d => np_exp (PrimFloat.mul (PrimFloat.opp (PrimFloat.div PrimFloat.one PrimFloat.two))
                                       (F64.sq (PrimFloat.div d epsilon))))
  else Raise (ValueError ("unknown radial fucntion " ++ function)).

(** [np.sum(w * a.flatten()[inds], axis=1) / np.sum(w, axis=1)] on
    two-dimensional [w] and [inds]. *)
Definition weighted_average (w : list (list float)) (a : list float)
  (inds : list (list nat)) : result (list float) :=
  picked ← mapM (mapM (getitem a)) inds;
  prod ← mapM2 broadcast_mul w picked;
  Ok (zip_with (fun p wr => PrimFloat.div (F64.sum p) (F64.sum wr)) prod w).

(** One turn of the loop over the sub-grids.  [tree] is [None] when the
    local variable was never assigned. *)
Definition interpolate_chunk (points : list point) (u v : list float)
  (function : string) (k : neighbour_count) (tree : option cKDTree)
  (st : loop_state) (subgrid : list (Z * Z)) : result loop_state :=
  let idelta := length subgrid in
  let i0 := st_i0 st in
  if String.eqb (lower function) "nearest" then
    match tree with
    | None => Raise (UnboundLocalError "tree")
    | Some tree =>
        let inds := map (fun g => (query1 tree (grid_point g)).2) subgrid in
        us ← mapM (getitem u) inds;
        vs ← mapM (getitem v) inds;
        Ok {| st_U := setslice (st_U st) i0 us;
              st_V := setslice (st_V st) i0 vs;
              st_i0 := (i0 + idelta)%nat;
              st_epsilon := st_epsilon st |}
    end
  else
    nb ← match k with
         | KAll =>
             Ok (Knn2 (map (fun g => map (fun p => euclidean p (grid_point g)) points) subgrid)
                      (map (fun _ => seq 0 (length u)) subgrid))
         | KInt k =>
             match tree with
             | None => Raise (UnboundLocalError "tree")
             | Some tree => query tree (map grid_point subgrid) k
             end
         end;
    let epsilon := match st_epsilon st with
                   | None => F64.median (pdist points)
                   | Some e => e
                   end in
    wf ← weight_function function epsilon;
    match nb with
    | Knn1 d inds =>
        (* [np.sum(..., axis=1)] on one-dimensional arrays *)
        _ ← mapM (getitem u) inds;
        Raise AxisError
    | Knn2 d inds =>
        let w := map (map wf) d in
        us ← weighted_average w u inds;
        vs ← weighted_average w v inds;
        Ok {| st_U := setslice (st_U st) i0 us;
              st_V := setslice (st_V st) i0 vs;
              st_i0 := (i0 + idelta)%nat;
              st_epsilon := Some epsilon |}
    end.

Fixpoint interpolate_loop (points : list point) (u v : list float)
  (function : string) (k : neighbour_count) (tree : option cKDTree)
  (st : loop_state) (subgrids : list (list (Z * Z))) : result loop_state :=
  match subgrids with
  | [] => Ok st
  | subgrid :: rest =>
      st' ← interpolate_chunk points u v function k tree st subgrid;
      interpolate_loop points u v function k tree st' rest
  end.

Definition nonempty {A} (l : list A) : bool :=
  match l with [] => false | _ => true end.

Definition interpolate_sparse_vectors (x y u v : list float)
  (domain_size : list nat) (function : string) (k : neighbour_count)
  (epsilon : option float) (nchunks : Z) : result dense_field :=
  points ← column_stack x y;
  '(rows, cols) ← match domain_size with
                  | [] => Raise IndexError
                  | [_] => Raise TypeError
                  | r :: c :: _ => Ok (r, c)
                  end;
  let grid := grid_points rows cols in
  let U0 := repeat PrimFloat.zero (length grid) in
  let V0 := repeat PrimFloat.zero (length grid) in
  let '(k, tree) :=
    match k with
    | KAll => (KAll, None)
    | KInt k => (KInt (Z.min k (Z.of_nat (length points))),
                 Some {| tree_data := points |})
    end in
  subgrids ← array_split grid nchunks;
  let subgrids := List.filter nonempty subgrids in
  st ← interpolate_loop points u v function k tree
         {| st_U := U0; st_V := V0; st_i0 := 0%nat; st_epsilon := epsilon |}
         subgrids;
  Ok {| X := meshgrid_X rows cols;
        Y := meshgrid_Y rows cols;
        U := reshape2 rows cols (st_U st);
        V := reshape2 rows cols (st_V st) |}.

End Interpolation.

(** ** The interpolated value at one grid point

    What the sub-grid loop computes, read off point by point: the
    description the chunked code is compared with. *)

Section InterpolationSemantics.

Variable np_exp : float -> float.

(** The value of the nearest sample. *)
Definition nearest_value (tree : cKDTree) (a : list float) (g : Z * Z) : float :=
  nth (query1 tree (grid_point g)).2 a PrimFloat.nan.

(** The weighted average [sum (w_i * a_i) / sum w_i] over neighbours at
    distances [d], with [w_i = wf d_i]. *)
Definition rbf_average (wf : float -> float) (d : list float) (a : list float) : float :=
  let w := map wf d in
  PrimFloat.div (F64.sum (zip_with PrimFloat.mul w a)) (F64.sum w).

(** Over all samples. *)
Definition rbf_all (wf : float -> float) (points : list point) (a : list float)
  (g : Z * Z) : float :=
  rbf_average wf (map (fun p => euclidean p (grid_point g)) points) a.

(** Over the [k] nearest samples. *)
Definition rbf_knn (wf : float -> float) (tree : cKDTree) (k : nat) (a : list float)
  (g : Z * Z) : float :=
  let row := query_row tree k (grid_point g) in
  rbf_average wf (map fst row) (map (fun i => nth i a PrimFloat.nan) (map snd row)).

(** The bandwidth in use. *)
Definition bandwidth (points : list point) (epsilon : option float) : float :=
  match epsilon with
  | None => F64.median (pdist points)
  | Some e => e
  end.

(** The outcome of a turn of the loop on any non-empty sub-grid: an
    exception, or the bandwidth kept for the next turns and the values of
    [U] and [V] at each point. *)
Definition chunk_semantics (points : list point) (u v : list float)
  (function : string) (k : neighbour_count) (tree : option cKDTree)
  (epsilon : option float)
  : result (option float * (Z * Z -> float) * (Z * Z -> float)) :=
  if String.eqb (lower function) "nearest" then
    match tree with
    | None => Raise (UnboundLocalError "tree")
    | Some tree =>
        if (length points =? 0)%nat then Raise IndexError
        else Ok (epsilon, nearest_value tree u, nearest_value tree v)
    end
  else
    let eps := bandwidth points epsilon in
    match k with
    | KAll =>
        wf ← weight_function np_exp function eps;
        Ok (Some eps, rbf_all wf points u, rbf_all wf points v)
    | KInt k =>
        match tree with
        | None => Raise (UnboundLocalError "tree")
        | Some tree =>
            if k <? 1 then Raise (ValueError "k must be at least 1")
            else
              wf ← weight_function np_exp function eps;
              if k =? 1 then Raise AxisError
              else Ok (Some eps, rbf_knn wf tree (Z.to_nat k) u,
                       rbf_knn wf tree (Z.to_nat k) v)
        end
    end.

Definition apply_semantics (st : loop_state) (subgrid : list (Z * Z))
  (sem : result (option float * (Z * Z -> float) * (Z * Z -> float)))
  : result loop_state :=
  '(eps, fU, fV) ← sem;
  Ok {| st_U := setslice (st_U st) (st_i0 st) (map fU subgrid);
        st_V := setslice (st_V st) (st_i0 st) (map fV subgrid);
        st_i0 := (st_i0 st + length subgrid)%nat;
        st_epsilon := eps |}.

End InterpolationSemantics.


(** ** A series for the exponential

    Rocq's primitive floats have no exponential.  Where the model is run on
    concrete numbers, [np.exp] is replaced by the series
    [(sum_{i <= 12} (x / 1024)^i / i!)^1024], computed in binary64. *)

Fixpoint exp_terms (n : nat) (y term i acc : float) : float :=
  match n with
  | O => acc
  | S n' =>
      let term' := PrimFloat.div (PrimFloat.mul term y) i in
      exp_terms n' y term' (PrimFloat.add i PrimFloat.one) (PrimFloat.add acc term')
  end.

Definition exp_series (x : float) : float :=
  let y := PrimFloat.div x (F64.of_Z 1024) in
  let s := exp_terms 12 y PrimFloat.one PrimFloat.one PrimFloat.one in
  Nat.iter 10 F64.sq s.

(** Two samples, at (0,0) with velocity (1,5) and at (3,0) with velocity
    (2,6), and a single sample: the inputs of the examples below. *)
Definition two_x : list float := [F64.of_Z 0; F64.of_Z 3].
Definition two_y : list float := [F64.of_Z 0; F64.of_Z 0].
Definition two_u : list float := [F64.of_Z 1; F64.of_Z 2].
Definition two_v : list float := [F64.of_Z 5; F64.of_Z 6].
Definition one_x : list float := [F64.of_Z 0].
Definition one_y : list float := [F64.of_Z 0].
Definition one_u : list float := [F64.of_Z 1].
Definition one_v : list float := [F64.of_Z 2].

(** ** The interpolation without chunking

    [interpolate_sparse_vectors] with the loop over the sub-grids replaced by
    the point-wise description applied once to the whole grid. *)

Section InterpolationUnchunked.

Variable np_exp : float -> float.

Definition interpolate_unchunked (x y u v : list float)
  (domain_size : list nat) (function : string) (k : neighbour_count)
  (epsilon : option float) : result dense_field :=
  points ← column_stack x y;
  '(rows, cols) ← match domain_size with
                  | [] => Raise IndexError
                  | [_] => Raise TypeError
                  | r :: c :: _ => Ok (r, c)
                  end;
  let grid := grid_points rows cols in
  let st0 := {| st_U := repeat PrimFloat.zero (length grid);
                st_V := repeat PrimFloat.zero (length grid);
                st_i0 := 0%nat; st_epsilon := epsilon |} in
  let '(k, tree) :=
    match k with
    | KAll => (KAll, None)
    | KInt k => (KInt (Z.min k (Z.of_nat (length points))),
                 Some {| tree_data := points |})
    end in
  st ← match grid with
       | [] => Ok st0
       | _ => apply_semantics st0 grid
                (chunk_semantics np_exp points u v function k tree epsilon)
       end;
  Ok {| X := meshgrid_X rows cols;
        Y := meshgrid_Y rows cols;
        U := reshape2 rows cols (st_U st);
        V := reshape2 rows cols (st_V st) |}.

End InterpolationUnchunked.

(** The kernel names the function knows, compared in lower case. *)
Definition known_function (function : string) : bool :=
  String.eqb (lower function) "nearest"
  || String.eqb (lower function) "inverse"
  || String.eqb (lower function) "gaussian".


(** ** More NumPy: masks, percentiles, unique rows *)

(** [a[mask]] with a boolean mask of the same shape. *)
Definition mask_index {A} (a : list A) (mask : list bool) : result (list A) :=
  if (length a =? length mask)%nat
  then Ok (map fst (List.filter snd (combine a mask)))
  else Raise IndexError.

(** [np.percentile(a, q)] for one [q], with linear interpolation between
    the two nearest ranks: [a_sorted[below] * (1 - w) + a_sorted[above] * w]
    where [q/100 * (n-1) = below + w]. *)
Definition percentile (a : list float) (q : float) : result float :=
  let Nx := length a in
  if (Nx =? 0)%nat then Raise IndexError
  else if existsb PrimFloat.is_nan a then Ok PrimFloat.nan
  else
    let ap := F64.sort a in
    let indices := PrimFloat.mul (PrimFloat.div q (F64.of_Z 100))
                                 (F64.of_Z (Z.of_nat Nx - 1)) in
    let indices_below := Z.to_nat (F64.floor indices) in
    let indices_above := Nat.min (indices_below + 1) (Nx - 1) in
    let weights_above := PrimFloat.sub indices (F64.of_Z (Z.of_nat indices_below)) in
    let weights_below := PrimFloat.sub PrimFloat.one weights_above in
    Ok (PrimFloat.add
          (PrimFloat.mul (nth indices_below ap PrimFloat.nan) weights_below)
          (PrimFloat.mul (nth indices_above ap PrimFloat.nan) weights_above)).

(** [np.floor] on one value: a float again. *)
Definition np_floor (x : float) : float :=
  match Prim2SF x with
  | SpecFloat.S754_finite _ _ e => if 0 <=? e then x else F64.of_Z (F64.floor x)
  | _ => x
  end.

(** [a.squeeze()] on a shape: the axes of length one are removed. *)
Definition squeeze (shape : list nat) : list nat :=
  List.filter (fun n => negb (n =? 1)%nat) shape.

(** The eight bytes of a 64-bit word, lowest first, and the raw bytes of a
    row of two floats: what a [np.void] view of the row holds. *)
Fixpoint bytes_le (n : nat) (z : Z) : list Z :=
  match n with
  | O => []
  | S n' => (z mod 256) :: bytes_le n' (z / 256)
  end.

Definition row_bytes (r : float * float) : list Z :=
  bytes_le 8 (F64.bits r.1) ++ bytes_le 8 (F64.bits r.2).

(** Byte-wise comparison, as [memcmp]. *)
Fixpoint bytes_ltb (a b : list Z) : bool :=
  match a, b with
  | x :: a', y :: b' => if x <? y then true else if y <? x then false else bytes_ltb a' b'
  | [], _ :: _ => true
  | _, _ => false
  end.

Fixpoint bytes_eqb (a b : list Z) : bool :=
  match a, b with
  | x :: a', y :: b' => (x =? y) && bytes_eqb a' b'
  | [], [] => true
  | _, _ => false
  end.

(** The rows not seen before, with their index: first occurrences. *)
Fixpoint first_occurrences (seen : list (list Z)) (i : nat)
  (rows : list (float * float)) : list (nat * (float * float)) :=
  match rows with
  | [] => []
  | r :: rest =>
      if existsb (bytes_eqb (row_bytes r)) seen
      then first_occurrences seen (S i) rest
      else (i, r) :: first_occurrences (row_bytes r :: seen) (S i) rest
  end.

Fixpoint insert_row (c : nat * (float * float)) (l : list (nat * (float * float)))
  : list (nat * (float * float)) :=
  match l with
  | [] => [c]
  | c' :: t => if bytes_ltb (row_bytes c.2) (row_bytes c'.2) then c :: l
               else c' :: insert_row c t
  end.

(** [np.unique(xyb, return_index=True)[1]] on the void view of the rows:
    the index of the first occurrence of each distinct row, the rows in
    byte order. *)
Definition unique_index (rows : list (float * float)) : list nat :=
  map fst (fold_right insert_row [] (first_occurrences [] 0 rows)).

(** ** declustering *)

Definition hstack2 (a b : list float) : result (list (float * float)) :=
  if (length a =? length b)%nat then Ok (combine a b)
  else Raise (ValueError "all the input array dimensions must match exactly").

(** The samples of one cell: [np.logical_and(xT == cx, yT == cy)]. *)
Definition cell_mask (xT yT : list float) (c : float * float) : list bool :=
  zip_with (fun a b => PrimFloat.eqb a c.1 && PrimFloat.eqb b c.2) xT yT.

Definition count_true (mask : list bool) : Z :=
  Z.of_nat (length (List.filter id mask)).

(** The body of the loop over the unique cells; [acc] holds the four lists
    [xN], [yN], [uN], [vN]. *)
Definition sparse : Type := list float * list float * list float * list float.

Definition decluster_cell (x y u v xT yT : list float) (min_nr_samples : Z)
  (acc : sparse) (c : float * float) : result sparse :=
  let '(xN, yN, uN, vN) := acc in
  let idx := cell_mask xT yT c in
  let npoints := count_true idx in
  if min_nr_samples <=? npoints then
    xs ← mask_index x idx;
    ys ← mask_index y idx;
    us ← mask_index u idx;
    vs ← mask_index v idx;
    Ok (xN ++ [F64.median xs], yN ++ [F64.median ys],
        uN ++ [F64.median us], vN ++ [F64.median vs])
  else Ok acc.

Fixpoint decluster_loop (x y u v xT yT : list float) (min_nr_samples : Z)
  (acc : sparse) (cells : list (float * float)) : result sparse :=
  match cells with
  | [] => Ok acc
  | c :: rest =>
      acc' ← decluster_cell x y u v xT yT min_nr_samples acc c;
      decluster_loop x y u v xT yT min_nr_samples acc' rest
  end.

Definition declustering (x y u v : list float) (decl_grid : Z)
  (min_nr_samples : Z) : result sparse :=
  (* discretize coordinates into declustering grid *)
  let xT := map (fun a => np_floor (PrimFloat.div a (F64.of_Z decl_grid))) x in
  let yT := map (fun a => np_floor (PrimFloat.div a (F64.of_Z decl_grid))) y in
  (* keep only unique combinations of coordinates *)
  xy ← hstack2 xT yT;
  let xy_shape := squeeze [length xy; 2%nat] in
  _ ← getitem xy_shape 1;          (* xy.shape[1] *)
  let idx := unique_index xy in
  unique_xy ← mapM (getitem xy) idx;
  decluster_loop x y u v xT yT min_nr_samples ([], [], [], []) unique_xy.

(** ** Keyword arguments *)

(** The Python values that reach [dense_lucaskanade] through [**kwargs]. *)
Inductive pyval : Type :=
| VNone
| VBool (b : bool)
| VInt (z : Z)
| VFloat (f : float)
| VStr (s : string)
| VPair (a b : Z)
| VArray (shape : list nat) (data : list float).

(** [kwargs.get(key, default)]. *)
Definition kwargs_get (kwargs : gmap string pyval) (key : string) (dflt : pyval) : pyval :=
  default dflt (kwargs !! key).

Definition as_float (v : pyval) : result float :=
  match v with
  | VInt z => Ok (F64.of_Z z)
  | VFloat f => Ok f
  | VBool b => Ok (F64.of_Z (if b then 1 else 0))
  | _ => Raise TypeError
  end.

Definition as_int (v : pyval) : result Z :=
  match v with
  | VInt z => Ok z
  | VBool b => Ok (if b then 1 else 0)
  | _ => Raise TypeError
  end.

Definition as_str (v : pyval) : result string :=
  match v with
  | VStr s => Ok s
  | _ => Raise TypeError
  end.

Definition as_neighbour_count (v : pyval) : result neighbour_count :=
  match v with
  | VInt z => Ok (KInt z)
  | VStr s => if String.eqb s "all" then Ok KAll else Raise TypeError
  | _ => Raise TypeError
  end.

Definition as_epsilon (v : pyval) : result (option float) :=
  match v with
  | VNone => Ok None
  | VInt z => Ok (Some (F64.of_Z z))
  | VFloat f => Ok (Some f)
  | _ => Raise TypeError
  end.

(** The local variables that hold the options, as lines 90-113 read them. *)
Record options : Type := {
  max_corners_ST : pyval;
  quality_level_ST : pyval;
  min_distance_ST : pyval;
  block_size_ST : pyval;
  winsize_LK : pyval;
  nr_levels_LK : pyval;
  max_speed : pyval;
  nr_IQR_outlier : pyval;
  size_opening : pyval;
  decl_grid : pyval;
  min_nr_samples : pyval;
  function : pyval;
  k : pyval;
  epsilon : pyval;
  nchunks : pyval;
  extra_vectors : pyval;
  verbose : pyval
}.

Definition one_tenth : float := PrimFloat.div PrimFloat.one (F64.of_Z 10).

Definition read_options (kwargs : gmap string pyval) : options :=
  {| max_corners_ST := kwargs_get kwargs "max_corners_ST" (VInt 500);
     quality_level_ST := kwargs_get kwargs "quality_level_ST" (VFloat one_tenth);
     min_distance_ST := kwargs_get kwargs "min_distance_ST" (VInt 5);
     block_size_ST := kwargs_get kwargs "block_size_ST" (VInt 15);
     winsize_LK := kwargs_get kwargs "winsize_LK5" (VPair 50 50);
     nr_levels_LK := kwargs_get kwargs "nr_levels_LK" (VInt 2);
     max_speed := kwargs_get kwargs "max_speed" (VInt 10);
     nr_IQR_outlier := kwargs_get kwargs "nr_IQR_outlier" (VInt 3);
     size_opening := kwargs_get kwargs "size_opening" (VInt 3);
     decl_grid := kwargs_get kwargs "decl_grid" (VInt 20);
     min_nr_samples := kwargs_get kwargs "min_nr_samples" (VInt 2);
     function := kwargs_get kwargs "function" (VStr "inverse");
     k := kwargs_get kwargs "k" (VInt 20);
     epsilon := kwargs_get kwargs "epsilon" VNone;
     nchunks := kwargs_get kwargs "nchunks" (VInt 5);
     extra_vectors := kwargs_get kwargs "extra_vectors" VNone;
     verbose := kwargs_get kwargs "verbose" (VBool true) |}.

(** The checks on [extra_vectors] (lines 106-112). *)
Definition check_extra_vectors (extra : pyval) : result unit :=
  match extra with
  | VNone => Ok tt
  | VArray shape _ =>
      if negb (length shape =? 2)%nat then
        Raise (ValueError ("extra_vectors has " ++ pretty (length shape)
                           ++ " dimensions, but 2 dimensions are expected"))
      else if negb (nth 1 shape 0 =? 4)%nat then
        Raise (ValueError ("extra_vectors has " ++ pretty (nth 1 shape 0%nat)
                           ++ " columns, but 4 columns are expected"))
      else Ok tt
  | _ => Raise TypeError
  end.

(** The checks on [R] (lines 82-87), on its shape and its values. *)
Definition check_R (shape : list nat) (data : list float) : result unit :=
  if negb (length shape =? 3)%nat then
    Raise (ValueError ("R has " ++ pretty (length shape)
                       ++ " dimensions, but a three-dimensional array is expected"))
  else if (nth 0 shape 0 <? 2)%nat then
    Raise (ValueError ("R has " ++ pretty (nth 0 shape 0%nat)
                       ++ " frame, but at least two frames are expected"))
  else if existsb (fun a => negb (PrimFloat.is_finite a)) data then
    Raise (ValueError "All values in R must be finite")
  else Ok tt.

(** Everything [dense_lucaskanade] does before the loop over the frames. *)
Definition check_inputs (shape : list nat) (data : list float)
  (kwargs : gmap string pyval) : result options :=
  _ ← check_R shape data;
  let opts := read_options kwargs in
  _ ← check_extra_vectors (extra_vectors opts);
  Ok opts.

(** ** The outlier filter (lines 151-161) *)

Definition speed_of (u v : float) : float :=
  PrimFloat.sqrt (PrimFloat.add (F64.sq u) (F64.sq v)).

Definition outlier_filter (max_speed nr_IQR_outlier : float)
  (x0 y0 u v : list float) : result sparse :=
  speed ← (if (length u =? length v)%nat then Ok (zip_with speed_of u v)
           else Raise (ValueError "operands could not be broadcast together"));
  q1 ← percentile speed (F64.of_Z 25);
  q2 ← percentile speed (F64.of_Z 50);
  q3 ← percentile speed (F64.of_Z 75);
  let max_speed_thr :=
    F64.amin [max_speed;
              PrimFloat.add q2 (PrimFloat.mul nr_IQR_outlier (PrimFloat.sub q3 q1))] in
  let min_speed_thr :=
    F64.amax [F64.of_Z 0;
              PrimFloat.sub q2 (PrimFloat.mul (F64.of_Z 2) (PrimFloat.sub q3 q1))] in
  let keep := map (fun s => PrimFloat.ltb s max_speed_thr && PrimFloat.ltb min_speed_thr s)
                  speed in
  u' ← mask_index u keep;
  v' ← mask_index v keep;
  y0' ← mask_index y0 keep;
  x0' ← mask_index x0 keep;
  Ok (x0', y0', u', v').

(** ** The same filter, sample by sample

    The four arrays read as one list of samples [(x0, y0, u, v)], the
    thresholds as the formulas state them. *)








(** ** Arrays in memory

    [dense_lucaskanade] receives a reference to the array [R] and works on
    views and copies of it.  A buffer is the storage of an array; an
    [ndarray] is a view: the buffer it reads and writes, where it starts and
    its shape.  [R[n,:,:]] is a view on the buffer of [R]; [.copy()] and the
    arithmetic operators return arrays with a buffer of their own. *)

Inductive buffer : Type :=
| FloatBuf (data : list float)
| ByteBuf (data : list Z).

Record ndarray : Type := {
  base : nat;
  offset : nat;
  shape : list nat
}.

(** The calls into OpenCV, in the order they are made. *)
Inductive event : Type :=
| EvMorphologyEx
| EvGoodFeaturesToTrack
| EvCalcOpticalFlowPyrLK (winSize maxLevel : pyval).

Record state : Type := {
  heap : list buffer;
  log : list event
}.

(** State-and-exception monad: an exception keeps the state reached. *)
Record M (A : Type) : Type := mkM { runM : state -> result A * state }.
Arguments mkM {A} _.
Arguments runM {A} _ _.

#[global] Instance M_ret : MRet M := fun A a => mkM (fun s => (Ok a, s)).
#[global] Instance M_bind : MBind M := fun A B f m =>
  mkM (fun s => match runM m s with
                | (Ok a, s') => runM (f a) s'
                | (Raise e, s') => (Raise e, s')
                end).

Definition lift {A} (r : result A) : M A := mkM (fun s => (r, s)).

Definition emit (ev : event) : M unit :=
  mkM (fun s => (Ok tt, {| heap := heap s; log := log s ++ [ev] |})).

Definition size (shape : list nat) : nat := fold_right Nat.mul 1%nat shape.

Definition load (a : ndarray) : M buffer :=
  mkM (fun s => match heap s !! base a with
                | Some (FloatBuf d) =>
                    (Ok (FloatBuf (firstn (size (shape a)) (skipn (offset a) d))), s)
                | Some (ByteBuf d) =>
                    (Ok (ByteBuf (firstn (size (shape a)) (skipn (offset a) d))), s)
                | None => (Raise (ValueError "no such array"), s)
                end).

Definition load_floats (a : ndarray) : M (list float) :=
  b ← load a;
  match b with
  | FloatBuf d => mret d
  | ByteBuf d => mret (map F64.of_Z d)
  end.

(** A new array with a buffer of its own. *)
Definition alloc (sh : list nat) (b : buffer) : M ndarray :=
  mkM (fun s => (Ok {| base := length (heap s); offset := 0; shape := sh |},
                 {| heap := heap s ++ [b]; log := log s |})).

(** Writing the elements of a view in place. *)
Definition store (a : ndarray) (vals : buffer) : M unit :=
  mkM (fun s => match heap s !! base a, vals with
                | Some (ByteBuf d), ByteBuf v =>
                    (Ok tt, {| heap := <[base a := ByteBuf (setslice d (offset a) v)]> (heap s);
                               log := log s |})
                | Some (FloatBuf d), FloatBuf v =>
                    (Ok tt, {| heap := <[base a := FloatBuf (setslice d (offset a) v)]> (heap s);
                               log := log s |})
                | Some _, _ => (Raise TypeError, s)
                | None, _ => (Raise (ValueError "no such array"), s)
                end).

(** [R[n,:,:]] on a three-dimensional array: a view, no copy. *)
Definition frame (R : ndarray) (n : nat) : ndarray :=
  let m := nth 1 (shape R) 0%nat in
  let c := nth 2 (shape R) 0%nat in
  {| base := base R; offset := (offset R + n * (m * c))%nat; shape := [m; c] |}.

(** [a.copy()]. *)
Definition copy (a : ndarray) : M ndarray :=
  b ← load a; alloc (shape a) b.

(** [a.min()] and [a.max()]: an empty array has neither. *)
Definition np_min (d : list float) : result float :=
  match d with
  | [] => Raise (ValueError "zero-size array to reduction operation minimum which has no identity")
  | _ => Ok (F64.amin d)
  end.

Definition np_max (d : list float) : result float :=
  match d with
  | [] => Raise (ValueError "zero-size array to reduction operation maximum which has no identity")
  | _ => Ok (F64.amax d)
  end.

(** [(a - a.min()) / (a.max() - a.min()) * 255] on the values of [a]. *)
Definition rescale_denominator (d : list float) : result float :=
  mx ← np_max d; mn ← np_min d; Ok (PrimFloat.sub mx mn).

Definition rescale_values (d : list float) : result (list float) :=
  mn ← np_min d;
  den ← rescale_denominator d;
  Ok (map (fun p => PrimFloat.mul (PrimFloat.div (PrimFloat.sub p mn) den)
                                  (F64.of_Z 255)) d).

Definition rescale (a : ndarray) : M ndarray :=
  d ← load_floats a;
  d' ← lift (rescale_values d);
  alloc (shape a) (FloatBuf d').

(** The conversion to an unsigned byte: the integer part, modulo 256; a
    value that is not finite gives 0. *)
Definition to_uint8 (x : float) : Z :=
  if PrimFloat.is_finite x then
    (if PrimFloat.ltb x PrimFloat.zero
     then - F64.floor (PrimFloat.opp x) else F64.floor x) mod 256
  else 0.

(** [np.ndarray.astype(a, "uint8")]. *)
Definition astype_uint8 (a : ndarray) : M ndarray :=
  d ← load_floats a;
  alloc (shape a) (ByteBuf (map to_uint8 d)).

(** An 8-bit image handed to OpenCV: its shape and its pixels. *)
Record image : Type := { im_shape : list nat; im_data : list Z }.

Definition load_image (a : ndarray) : M image :=
  b ← load a;
  match b with
  | ByteBuf d => mret {| im_shape := shape a; im_data := d |}
  | FloatBuf _ => lift (Raise (ValueError "R must be passed as 8-bit image"))
  end.

(** ** clean_image, the OpenCV wrappers and dense_lucaskanade *)

(** [np.ndarray.astype(R > 0, "uint8")]. *)
Definition binarize (b : buffer) : list Z :=
  match b with
  | ByteBuf d => map (fun p => if 0 <? p then 1 else 0) d
  | FloatBuf d => map (fun p => if PrimFloat.ltb PrimFloat.zero p then 1 else 0) d
  end.

(** [(field_bin - field_bin_out) > 0] in 8-bit arithmetic. *)
Definition opening_mask (field_bin field_bin_out : list Z) : result (list bool) :=
  if (length field_bin =? length field_bin_out)%nat
  then Ok (zip_with (fun a b => 0 <? (a - b) mod 256) field_bin field_bin_out)
  else Raise (ValueError "operands could not be broadcast together").

(** [R[mask] = np.nanmin(R)] on the values of [R]. *)
Definition fill_with_nanmin (b : buffer) (mask : list bool) : result buffer :=
  match b with
  | ByteBuf d =>
      match d with
      | [] => Raise (ValueError "zero-size array to reduction operation fmin which has no identity")
      | p :: t =>
          let mn := fold_left Z.min t p in
          Ok (ByteBuf (zip_with (fun p (m : bool) => if m then mn else p) d mask))
      end
  | FloatBuf d =>
      match d with
      | [] => Raise (ValueError "zero-size array to reduction operation fmin which has no identity")
      | _ =>
          let mn := F64.amin (List.filter (fun p => negb (PrimFloat.is_nan p)) d) in
          Ok (FloatBuf (zip_with (fun p (m : bool) => if m then mn else p) d mask))
      end
  end.

Definition stacks : Type :=
  list (list float) * list (list float) * list (list float) * list (list float).

Section Pipeline.

(** OpenCV and the exponential of the C library. *)
Variable cv2_getStructuringElement : pyval -> result (list (list Z)).
Variable cv2_morphologyEx : image -> list (list Z) -> result (list Z).
Variable cv2_goodFeaturesToTrack :
  image -> pyval -> pyval -> pyval -> pyval -> result (option (list point)).
Variable cv2_calcOpticalFlowPyrLK :
  image -> image -> list point -> pyval -> pyval ->
  result (list point * list Z * list float).
Variable np_exp : float -> float.

(** Writes into the array it is given, and returns it. *)
Definition clean_image (R : ndarray) (n : pyval) : M ndarray :=
  (* convert to binary image (rain/no rain) *)
  b ← load R;
  let field_bin := {| im_shape := shape R; im_data := binarize b |} in
  (* build a structuring element of size (nx) *)
  kernel ← lift (cv2_getStructuringElement n);
  (* apply morphological opening (i.e. erosion then dilation) *)
  _ ← emit EvMorphologyEx;
  field_bin_out ← lift (cv2_morphologyEx field_bin kernel);
  (* build mask to be applied on the original image *)
  mask ← lift (opening_mask (im_data field_bin) field_bin_out);
  (* filter out small isolated echoes based on mask *)
  b' ← lift (fill_with_nanmin b mask);
  _ ← store R b';
  mret R.

Definition ShiTomasi_features_to_track (R : ndarray)
  (max_corners_ST quality_level_ST min_distance_ST block_size_ST : pyval)
  : M (list point) :=
  if negb (length (shape R) =? 2)%nat then
    lift (Raise (ValueError "R must be a two-dimensional array"))
  else
    img ← load_image R;
    _ ← emit EvGoodFeaturesToTrack;
    p0 ← lift (cv2_goodFeaturesToTrack img max_corners_ST quality_level_ST
                 min_distance_ST block_size_ST);
    match p0 with
    | None => lift (Raise (ValueError "Shi-Tomasi found no good feature to be tracked."))
    | Some p0 => mret p0
    end.

Definition LucasKanade_features_tracking (prvs next : ndarray)
  (p0 : list point) (winsize_LK nr_levels_LK : pyval) : M sparse :=
  img1 ← load_image prvs;
  img2 ← load_image next;
  _ ← emit (EvCalcOpticalFlowPyrLK winsize_LK nr_levels_LK);
  '(p1, st, err) ← lift (cv2_calcOpticalFlowPyrLK img1 img2 p0 winsize_LK nr_levels_LK);
  (* keep only features that have been found *)
  let st := map (fun s => s =? 1) st in
  p1 ← lift (mask_index p1 st);
  p0 ← lift (mask_index p0 st);
  err ← lift (mask_index err st);
  (* extract vectors *)
  let x0 := map fst p0 in
  let y0 := map snd p0 in
  let u := zip_with (fun a b : point => PrimFloat.sub a.1 b.1) p1 p0 in
  let v := zip_with (fun a b : point => PrimFloat.sub a.2 b.2) p1 p0 in
  mret (x0, y0, u, v).

(** The body of the loop over consecutive frames (lines 126-167). *)
Definition frame_pair (R : ndarray) (opts : options) (acc : stacks) (n : nat)
  : M stacks :=
  let '(y0Stack, x0Stack, uStack, vStack) := acc in
  (* extract consecutive images *)
  prvs ← copy (frame R n);
  next ← copy (frame R (n + 1));
  (* scale between 0 and 255 *)
  prvs ← rescale prvs;
  next ← rescale next;
  (* convert to 8-bit *)
  prvs ← astype_uint8 prvs;
  next ← astype_uint8 next;
  (* remove small noise with a morphological operator (opening) *)
  prvs ← clean_image prvs (size_opening opts);
  next ← clean_image next (size_opening opts);
  (* Shi-Tomasi good features to track *)
  p0 ← ShiTomasi_features_to_track prvs (max_corners_ST opts)
         (quality_level_ST opts) (min_distance_ST opts) (block_size_ST opts);
  (* get sparse u, v vectors with Lucas-Kanade tracking *)
  '(x0, y0, u, v) ← LucasKanade_features_tracking prvs next p0
                      (winsize_LK opts) (nr_levels_LK opts);
  (* exclude outlier vectors *)
  ms ← lift (as_float (max_speed opts));
  iqr ← lift (as_float (nr_IQR_outlier opts));
  '(x0, y0, u, v) ← lift (outlier_filter ms iqr x0 y0 u v);
  (* stack vectors within time window *)
  mret (y0Stack ++ [y0], x0Stack ++ [x0], uStack ++ [u], vStack ++ [v]).

Fixpoint frame_loop (R : ndarray) (opts : options) (acc : stacks) (ns : list nat)
  : M stacks :=
  match ns with
  | [] => mret acc
  | n :: rest => acc' ← frame_pair R opts acc n; frame_loop R opts acc' rest
  end.

(** [extra_vectors[:, j]] on an array of four columns. *)
Definition column (data : list float) (rows j : nat) : list float :=
  map (fun i => nth (i * 4 + j) data PrimFloat.nan) (seq 0 rows).

Definition append_extra_vectors (s : sparse) (extra : pyval) : sparse :=
  match extra with
  | VArray sh data =>
      let '(x, y, u, v) := s in
      let rows := nth 0 sh 0%nat in
      (x ++ column data rows 0, y ++ column data rows 1,
       u ++ column data rows 2, v ++ column data rows 3)
  | _ => s
  end.

(** The function itself: [R] is a reference to an array in memory.  The
    messages printed when [verbose] is set are not modelled. *)
Definition dense_lucaskanade (R : ndarray) (kwargs : gmap string pyval)
  : M (list (list float) * list (list float)) :=
  data ← load_floats R;
  opts ← lift (check_inputs (shape R) data kwargs);
  let nr_fields := nth 0 (shape R) 0%nat in
  let domain_size := [nth 1 (shape R) 0%nat; nth 2 (shape R) 0%nat] in
  '(y0Stack, x0Stack, uStack, vStack) ←
     frame_loop R opts ([], [], [], []) (seq 0 (nr_fields - 1));
  (* convert lists of arrays into single arrays *)
  let y0 := concat y0Stack in
  let x0 := concat x0Stack in
  let u := concat uStack in
  let v := concat vStack in
  (* decluster sparse motion vectors *)
  grid ← lift (as_int (decl_grid opts));
  min_nr ← lift (as_int (min_nr_samples opts));
  s ← lift (declustering x0 y0 u v grid min_nr);
  (* append extra vectors if provided *)
  let '(x, y, u, v) := append_extra_vectors s (extra_vectors opts) in
  (* kernel interpolation *)
  fn ← lift (as_str (function opts));
  kk ← lift (as_neighbour_count (k opts));
  eps ← lift (as_epsilon (epsilon opts));
  nch ← lift (as_int (nchunks opts));
  r ← lift (interpolate_sparse_vectors np_exp x y u v domain_size fn kk eps nch);
  mret (U r, V r).

End Pipeline.

(** ** Pre- and postconditions for the state monad *)

(** From a state that satisfies [P], [m] returns a value and a state that
    satisfy [Q], or raises in a state that satisfies [E]. *)
Definition hoare {A} (P : state -> Prop) (m : M A)
  (Q : A -> state -> Prop) (E : state -> Prop) : Prop :=
  forall s, P s ->
    match runM m s with
    | (Ok a, s') => Q a s'
    | (Raise _, s') => E s'
    end.

(** The use an OpenCV call makes of the search window. *)
Definition window_used (w : pyval) (ev : event) : Prop :=
  match ev with
  | EvCalcOpticalFlowPyrLK winSize _ => winSize = w
  | _ => True
  end.

(** What a run that started from the buffers [h0] and the log [l0] keeps
    true: the buffers that existed are what they were, and every tracking
    call made since used the window [w]. *)
Definition kept (h0 : list buffer) (l0 : list event) (w : pyval) (s : state) : Prop :=
  h0 `prefix_of` heap s /\
  exists new, log s = l0 ++ new /\ Forall (window_used w) new.

(** An array whose buffer did not exist at the start. *)
Definition fresh (h0 : list buffer) (a : ndarray) : Prop :=
  (length h0 <= base a)%nat.

(** ** The documented preconditions of dense_lucaskanade *)

(** [extra_vectors] is absent, or two-dimensional with exactly 4 columns. *)
Definition valid_extra_vectors (extra : pyval) : bool :=
  match extra with
  | VNone => true
  | VArray sh _ => (length sh =? 2)%nat && (nth 1 sh 0 =? 4)%nat
  | _ => false
  end.

(** [R] is three-dimensional, has at least two frames and only finite
    values, and [extra_vectors] is valid. *)
Definition valid_inputs (sh : list nat) (data : list float)
  (kwargs : gmap string pyval) : bool :=
  (length sh =? 3)%nat && (2 <=? nth 0 sh 0)%nat
  && forallb PrimFloat.is_finite data
  && valid_extra_vectors (kwargs_get kwargs "extra_vectors" VNone).

(** The values of the array as [R] views them, and those of its frame [n]. *)
Definition view_values (R : ndarray) (d : list float) : list float :=
  firstn (size (shape R)) (skipn (offset R) d).


(** ** A stand-in for OpenCV

    Where the whole pipeline is run on concrete numbers, OpenCV is replaced
    by functions that open nothing, report three corners and move every
    corner by one pixel in [x] and by [i] pixels in [y] for the [i]-th
    corner. *)

Definition demo_getStructuringElement (n : pyval) : result (list (list Z)) :=
  Ok [[1]].

Definition demo_morphologyEx (im : image) (kernel : list (list Z)) : result (list Z) :=
  Ok (im_data im).

Definition demo_goodFeaturesToTrack (im : image) (a b c d : pyval)
  : result (option (list point)) :=
  Ok (Some [(F64.of_Z 0, F64.of_Z 0); (F64.of_Z 1, F64.of_Z 1); (F64.of_Z 1, F64.of_Z 0)]).

Definition demo_calcOpticalFlowPyrLK (a b : image) (p0 : list point) (w l : pyval)
  : result (list point * list Z * list float) :=
  Ok (imap (fun i (p : point) =>
              (PrimFloat.add p.1 PrimFloat.one,
               PrimFloat.add p.2 (F64.of_Z (Z.of_nat i)))) p0,
      map (fun _ => 1) p0, map (fun _ => PrimFloat.zero) p0).

(** An array of two frames of two by two pixels, alone in memory; and the
    same with a first frame of equal values. *)
Definition demo_R : ndarray := {| base := 0; offset := 0; shape := [2; 2; 2]%nat |}.

Definition demo_state : state :=
  {| heap := [FloatBuf (map F64.of_Z [1; 2; 3; 4; 5; 6; 7; 9])]; log := [] |}.

Definition flat_data : list float := map F64.of_Z [5; 5; 5; 5; 5; 6; 7; 9].

(** Five tracked vectors of speeds 5, 1, 10, 2 and 3. *)
Definition five_x0 : list float := map F64.of_Z [0; 1; 2; 3; 4].
Definition five_y0 : list float := map F64.of_Z [0; 0; 0; 0; 0].
Definition five_u : list float := map F64.of_Z [3; 0; 6; 0; 0].
Definition five_v : list float := map F64.of_Z [4; 1; 8; 2; 3].


(** The comparison of two positive binary64 values by exponent, then by
    mantissa. *)
Definition lex_compare (e1 : Z) (m1 : positive) (e2 : Z) (m2 : positive) : comparison :=
  match e1 ?= e2 with
  | Lt => Lt
  | Gt => Gt
  | Eq => Pos.compare_cont Eq m1 m2
  end.



(** [b] is not strictly nearer than [a]. *)
Definition not_nearer (a b : float * nat) : Prop :=
  PrimFloat.ltb b.1 a.1 = false.

(** ** Declustering, cell by cell *)








(** ** The keyword arguments that are read

    The keys that lines 90-105 of [dense_lucaskanade] look up in [kwargs],
    as they are spelled there. *)
Definition option_names : list string :=
  ["max_corners_ST"; "quality_level_ST"; "min_distance_ST"; "block_size_ST";
   "winsize_LK5"; "nr_levels_LK"; "max_speed"; "nr_IQR_outlier"; "size_opening";
   "decl_grid"; "min_nr_samples"; "function"; "k"; "epsilon"; "nchunks";
   "extra_vectors"; "verbose"].

(** The pixels an array views in its buffer. *)
Definition view_bytes (a : ndarray) (d : list Z) : image :=
  {| im_shape := shape a; im_data := firstn (size (shape a)) (skipn (offset a) d) |}.


(** The OpenCV calls of one turn of the loop over the frames, in the order
    they are made (lines 139-149). *)
Definition frame_pair_calls (opts : options) : list event :=
  [EvMorphologyEx; EvMorphologyEx; EvGoodFeaturesToTrack;
   EvCalcOpticalFlowPyrLK (winsize_LK opts) (nr_levels_LK opts)].

(** * The other modules

    [nowcasts/simple_advection.py], [noise/motion.py] and
    [io/nowcast_importers.py].  An array passed by value is its shape and
    its values in row-major order. *)

Record nparray : Type := { dims : list nat; values : list float }.

(** [str] of a tuple of integers. *)
Definition str_tuple (t : list nat) : string :=
  match t with
  | [] => "()"
  | [a] => ("(" ++ pretty a ++ ",)")%string
  | a :: rest =>
      ("(" ++ pretty a
           ++ fold_right (fun (b : nat) (acc : string) => ", " ++ pretty b ++ acc) ")" rest)%string
  end.

Module simple_advection.

Definition _check_inputs (R V : nparray) : result unit :=
  if negb (length (dims R) =? 2)%nat then
    Raise (ValueError "R must be a two-dimensional array")
  else if negb (length (dims V) =? 3)%nat then
    Raise (ValueError "V must be a three-dimensional array")
  else if negb (bool_decide (dims R = firstn 2 (skipn 1 (dims V)))) then
    Raise (ValueError ("dimension mismatch between R and V: shape(R)="
                       ++ str_tuple (dims R) ++ ", shape(V)=" ++ str_tuple (dims V)))
  else Ok tt.

Section Forecast.

(** An extrapolation method, and [advection.get_method], which is not part
    of these sources. *)
Definition extrapolator : Type :=
  nparray -> nparray -> Z -> gmap string pyval -> result nparray.

Variable advection_get_method : string -> result extrapolator.

(** The two messages printed on the way are not modelled. *)
Definition forecast (R V : nparray) (num_timesteps : Z) (extrap_method : string)
  (extrap_kwargs : gmap string pyval) : result nparray :=
  _ ← _check_inputs R V;
  extrap_method ← advection_get_method extrap_method;
  extrap_method R V num_timesteps extrap_kwargs.

End Forecast.

End simple_advection.

(** ** Exceptions of the other modules *)

Inductive py_error : Type :=
| Exn (e : exn)
| ZeroDivisionError
| KeyError (key : string)
| NameError (name : string)
| Exception (msg : string)
| LibraryError (what : string).

Inductive outcome (A : Type) : Type :=
| Return (a : A)
| Throw (e : py_error).
Arguments Return {A} _.
Arguments Throw {A} _.

#[global] Instance outcome_ret : MRet outcome := fun A a => Return a.
#[global] Instance outcome_bind : MBind outcome := fun A B f m =>
  match m with
  | Return a => f a
  | Throw e => Throw e
  end.

Module motion.

(** The dictionary that [initialize_bps] returns, with the generator it
    was given in the state the call left it in. *)
Record perturbator (rng : Type) : Type := {
  randstate : rng;
  vsf : float;
  p_par : list float;
  p_perp : list float;
  V_pert_par : nparray;
  V_pert_perp : nparray
}.
Arguments randstate {rng} _.
Arguments vsf {rng} _.
Arguments p_par {rng} _.
Arguments p_perp {rng} _.
Arguments V_pert_par {rng} _.
Arguments V_pert_perp {rng} _.

Section Motion.

(** The random generator: its state, [seed] and [laplace]. *)
Variable rng : Type.
Variable rng_seed : Z -> rng -> rng.
Variable rng_laplace : rng -> float * rng.

(** [np.stack([a, b])] on flattened planes, and the two planes of an array
    of shape (2,m,n). *)
Definition stack2 (a b : list float) : list float := a ++ b.

Definition plane (mn : nat) (c : nat) (a : list float) : list float :=
  firstn mn (skipn (c * mn) a).

(** The generator is an object that the call changes: its state is
    returned along with the outcome. *)
Definition initialize_bps (V : nparray) (pixelsperkm timestep : float)
  (p_pert_par p_pert_perp : list float) (rs : rng) (seed : option Z)
  : outcome (perturbator rng) * rng :=
  if negb (length (dims V) =? 3)%nat then
    (Throw (Exn (ValueError "V is not a three-dimensional array")), rs)
  else if negb (nth 0 (dims V) 0 =? 2)%nat then
    (Throw (Exn (ValueError "the first dimension of V is not 2")), rs)
  else if negb (length p_pert_par =? 3)%nat then
    (Throw (Exn (ValueError "the length of p_pert_par is not 3")), rs)
  else if negb (length p_pert_perp =? 3)%nat then
    (Throw (Exn (ValueError "the length of p_pert_perp is not 3")), rs)
  else
    let rs := match seed with Some z => rng_seed z rs | None => rs end in
    let '(v_pert_x, rs) := rng_laplace rs in
    let '(v_pert_y, rs) := rng_laplace rs in
    let mn := (nth 1 (dims V) 0 * nth 2 (dims V) 0)%nat in
    let ones := repeat PrimFloat.one mn in
    let V_pert := stack2 (map (PrimFloat.mul v_pert_x) ones)
                         (map (PrimFloat.mul v_pert_y) ones) in
    (* scale factor for converting the unit of the advection velocities *)
    let den := PrimFloat.mul timestep pixelsperkm in
    if PrimFloat.eqb den PrimFloat.zero then (Throw ZeroDivisionError, rs)
    else
      let vsf := PrimFloat.div (F64.of_Z 60) den in
      let Vs := map (fun a => PrimFloat.mul a vsf) (values V) in
      (* [linalg.norm] checks its argument with [asarray_chkfinite] *)
      if existsb (fun a => negb (PrimFloat.is_finite a)) Vs then
        (Throw (Exn (ValueError "array must not contain infs or NaNs")), rs)
      else
        let N := zip_with speed_of (plane mn 0 Vs) (plane mn 1 Vs) in
        let V_n := zip_with PrimFloat.div Vs (stack2 N N) in
        let prod := zip_with PrimFloat.mul V_pert V_n in
        let DP := zip_with PrimFloat.add (plane mn 0 prod) (plane mn 1 prod) in
        let par := zip_with PrimFloat.mul V_n (stack2 DP DP) in
        (Return {| randstate := rs;
                   vsf := vsf;
                   p_par := p_pert_par;
                   p_perp := p_pert_perp;
                   V_pert_par := {| dims := dims V; values := par |};
                   V_pert_perp := {| dims := dims V;
                                     values := zip_with PrimFloat.sub V_pert par |} |},
         rs).

End Motion.

(** The arguments that pass the four checks. *)
Definition valid_arguments (V : nparray) (p_pert_par p_pert_perp : list float) : bool :=
  (length (dims V) =? 3)%nat && (nth 0 (dims V) 0 =? 2)%nat
  && (length p_pert_par =? 3)%nat && (length p_pert_perp =? 3)%nat.

(** A generator for running the function: the draws to come. *)
Definition demo_seed (z : Z) (rs : list float) : list float := rs.
Definition demo_laplace (rs : list float) : float * list float :=
  (hd PrimFloat.zero rs, tl rs).

(** A field of two by two pixels: no motion at the first pixel. *)
Definition demo_V : nparray :=
  {| dims := [2; 2; 2]%nat;
     values := map F64.of_Z [0; 1; 2; 3; 0; 1; 0; -2] |}.

End motion.

Module nowcast_importers.

Section Importers.

(** The value of an attribute of a netCDF variable, what ["%s" % value]
    inserts for it, and whether [value == s] holds for a string [s]. *)
Variable attr : Type.
Variable attr_str : attr -> string.
Variable attr_eq : attr -> string -> bool.

Definition dict_getitem (d : gmap string attr) (key : string) : outcome attr :=
  match d !! key with
  | Some v => Return v
  | None => Throw (KeyError key)
  end.

(** [" +name=%s" % grid_mapping[key]] when [key] is in the dictionary. *)
Definition optional_parameter (d : gmap string attr) (key name : string) : string :=
  match d !! key with
  | Some v => (name ++ attr_str v)%string
  | None => ""%string
  end.

Definition _convert_grid_mapping_to_proj4 (grid_mapping : gmap string attr)
  : outcome (option string) :=
  name ← dict_getitem grid_mapping "grid_mapping_name";
  if attr_eq name "polar_stereographic" then
    let proj_str := "+proj=stere"%string in
    lon ← dict_getitem grid_mapping "straight_vertical_longitude_from_pole";
    let proj_str := (proj_str ++ " +lon_0=" ++ attr_str lon)%string in
    lat ← dict_getitem grid_mapping "latitude_of_projection_origin";
    let proj_str := (proj_str ++ " +lat_0=" ++ attr_str lat)%string in
    let proj_str := (proj_str ++ optional_parameter grid_mapping "standard_parallel" " +lat_ts=")%string in
    let proj_str := (proj_str ++ optional_parameter grid_mapping
                                  "scale_factor_at_projection_origin" " +k_0=")%string in
    x0 ← dict_getitem grid_mapping "false_easting";
    let proj_str := (proj_str ++ " +x_0=" ++ attr_str x0)%string in
    y0 ← dict_getitem grid_mapping "false_northing";
    let proj_str := (proj_str ++ " +y_0=" ++ attr_str y0)%string in
    Return (Some proj_str)
  else Return None.

(** The netCDF4 library: whether it could be imported, opening a file, the
    variables of an open file with their attributes, reading a variable as
    an array of floats ([R[...].squeeze().astype(float)]) and reading the
    time stamps ([netCDF4.num2date(time_var[:], time_var.units)]). *)
Variable netcdf4_imported : bool.
Variable dataset : Type.
Variable variable : Type.
Variable timestamps : Type.
Variable netCDF4_Dataset : string -> outcome dataset.
Variable ds_variables : dataset -> gmap string variable.
Variable ncattrs : variable -> gmap string attr.
Variable read_floats : variable -> outcome nparray.
Variable num2date : variable -> outcome timestamps.

Definition supported_variable (vars : gmap string variable) : outcome variable :=
  match vars !! "precip_intensity" with
  | Some R => Return R
  | None =>
      match vars !! "hourly_precip_accum" with
      | Some R => Return R
      | None =>
          match vars !! "reflectivity" with
          | Some R => Return R
          | None => Throw (Exception "the netCDF file does not contain any supported variable name ('precip_intensity', 'hourly_precip_accum', or 'reflectivity')")
          end
      end
  end.

(** The module never binds the name [np]: the evaluation of
    [np.nanmin(R)] on line 84 raises [NameError], and the lines after it
    are not reached. *)
Definition import_netcdf_pysteps (filename : string)
  : outcome (nparray * gmap string pyval) :=
  if negb netcdf4_imported then Throw (Exception "netCDF4 not imported")
  else
    ds ← netCDF4_Dataset filename;
    let vars := ds_variables ds in
    R ← supported_variable vars;
    R ← read_floats R;
    time_var ← match vars !! "time" with
               | Some v => Return v
               | None => Throw (KeyError "time")
               end;
    stamps ← num2date time_var;
    proj ← match vars !! "polar_stereographic" with
           | Some vn =>
               proj_str ← _convert_grid_mapping_to_proj4 (ncattrs vn);
               Return (Some proj_str)
           | None => Return None
           end;
    Throw (NameError "np").

End Importers.

End nowcast_importers.
(** ** Lemmas on the building blocks *)

Ltac unfold_bind := unfold mbind, result_bind, bind, mret, result_ret in *.

Lemma mapM_ok_map {A B} (f : A -> result B) (g : A -> B) (l : list A) :
  (forall a, In a l -> f a = Ok (g a)) -> mapM f l = Ok (map g l).
Proof.
  induction l as [|a t IH]; intros H; simpl; [reflexivity|].
  unfold_bind. rewrite (H a) by (left; reflexivity).
  rewrite IH by (intros; apply H; right; assumption). reflexivity.
Qed.

Lemma mapM_raise {A B} (f : A -> result B) (e : exn) (l : list A) :
  l <> [] -> (forall a, In a l -> f a = Raise e) -> mapM f l = Raise e.
Proof.
  destruct l as [|a t]; intros Hne H; [congruence|].
  simpl. unfold_bind. rewrite (H a) by (left; reflexivity). reflexivity.
Qed.

Lemma getitem_lt {A} (a : list A) (i : nat) (d : A) :
  (i < length a)%nat -> getitem a i = Ok (nth i a d).
Proof.
  intros H. unfold getitem.
  destruct (nth_error a i) eqn:E.
  - f_equal. symmetry. apply nth_error_nth. exact E.
  - apply nth_error_None in E. lia.
Qed.

Lemma getitem_ge {A} (a : list A) (i : nat) :
  (length a <= i)%nat -> getitem a i = Raise IndexError.
Proof.
  intros H. unfold getitem.
  destruct (nth_error a i) eqn:E; [|reflexivity].
  assert (i < length a)%nat by (apply nth_error_Some; congruence). lia.
Qed.


(** ** The k-d tree model *)

Lemma insert_neighbour_length c l :
  length (insert_neighbour c l) = S (length l).
Proof.
  induction l as [|c' t IH]; simpl; [reflexivity|].
  destruct (PrimFloat.ltb c.1 c'.1); simpl; [reflexivity|]. now rewrite IH.
Qed.

Lemma insert_neighbour_Forall (P : float * nat -> Prop) c l :
  P c -> Forall P l -> Forall P (insert_neighbour c l).
Proof.
  intros Hc Hl. induction Hl as [|c' t Hc' Ht IH]; simpl.
  - constructor; [assumption|constructor].
  - destruct (PrimFloat.ltb c.1 c'.1); constructor; try assumption.
    constructor; assumption.
Qed.

Lemma fold_insert_length cs acc :
  length (fold_left (fun acc c => insert_neighbour c acc) cs acc)
  = (length cs + length acc)%nat.
Proof.
  revert acc. induction cs as [|c t IH]; intros acc; simpl; [reflexivity|].
  rewrite IH, insert_neighbour_length. lia.
Qed.

Lemma fold_insert_Forall (P : float * nat -> Prop) cs acc :
  Forall P cs -> Forall P acc ->
  Forall P (fold_left (fun acc c => insert_neighbour c acc) cs acc).
Proof.
  revert acc. induction cs as [|c t IH]; intros acc Hcs Hacc; simpl; [assumption|].
  inversion Hcs; subst. apply IH; [assumption|].
  apply insert_neighbour_Forall; assumption.
Qed.

Lemma neighbours_length tree q :
  length (neighbours tree q) = length (tree_data tree).
Proof.
  unfold neighbours. rewrite fold_insert_length, length_imap. simpl. lia.
Qed.

Lemma neighbours_index tree q :
  Forall (fun c => (c.2 < length (tree_data tree))%nat) (neighbours tree q).
Proof.
  unfold neighbours. apply fold_insert_Forall; [|constructor].
  apply Forall_forall. intros c Hc.
  apply elem_of_lookup_imap in Hc.
  destruct Hc as (i & p & -> & Hi). simpl.
  apply lookup_lt_Some in Hi. exact Hi.
Qed.

Lemma query_row_length tree k q : length (query_row tree k q) = k.
Proof.
  unfold query_row. rewrite length_app, repeat_length.
  pose proof (firstn_le_length k (neighbours tree q)). lia.
Qed.

Lemma query_row_index tree k q :
  (k <= length (tree_data tree))%nat ->
  Forall (fun c => (c.2 < length (tree_data tree))%nat) (query_row tree k q).
Proof.
  intros Hk. unfold query_row.
  rewrite firstn_length_le by (rewrite neighbours_length; exact Hk).
  rewrite Nat.sub_diag. simpl. rewrite app_nil_r.
  apply Forall_forall. intros c Hc. apply subseteq_take in Hc.
  pose proof (neighbours_index tree q) as H.
  rewrite Forall_forall in H. apply H. exact Hc.
Qed.

Lemma query1_index tree q :
  (1 <= length (tree_data tree))%nat ->
  ((query1 tree q).2 < length (tree_data tree))%nat.
Proof.
  intros HN. unfold query1.
  pose proof (query_row_index tree 1 q HN) as H.
  pose proof (query_row_length tree 1 q) as HL.
  destruct (query_row tree 1 q) as [|c t]; [discriminate|].
  simpl. inversion H; subst. assumption.
Qed.

Lemma query1_missing tree q :
  tree_data tree = [] -> (query1 tree q).2 = 0%nat.
Proof.
  intros H. unfold query1, query_row, neighbours. rewrite H. reflexivity.
Qed.

(** ** One turn of the loop agrees with the point-wise description *)

Lemma broadcast_mul_same w a :
  length w = length a -> broadcast_mul w a = Ok (zip_with PrimFloat.mul w a).
Proof. intros H. unfold broadcast_mul. rewrite H, Nat.eqb_refl. reflexivity. Qed.

Lemma map_nth_seq {A} (a : list A) (d : A) :
  map (fun i => nth i a d) (seq 0 (length a)) = a.
Proof.
  induction a as [|x t IH]; [reflexivity|].
  simpl. f_equal. rewrite <- seq_shift, map_map. exact IH.
Qed.

Lemma zip_with_map_map {G A B C} (f : A -> B -> C) (p : G -> A) (q : G -> B) l :
  zip_with f (map p l) (map q l) = map (fun g => f (p g) (q g)) l.
Proof. induction l as [|g t IH]; simpl; [reflexivity|]. now rewrite IH. Qed.

Section ChunkSemantics.

Variable np_exp : float -> float.

Lemma weighted_average_map {G} (sub : list G) (drow : G -> list float)
  (irow : G -> list nat) (wf : float -> float) (a : list float) :
  (forall g, In g sub ->
     length (drow g) = length (irow g) /\
     Forall (fun i => (i < length a)%nat) (irow g)) ->
  weighted_average (map (fun g => map wf (drow g)) sub) a (map irow sub)
  = Ok (map (fun g => rbf_average wf (drow g)
                        (map (fun i => nth i a PrimFloat.nan) (irow g))) sub).
Proof.
  intros H. unfold weighted_average.
  assert (P1 : mapM (mapM (getitem a)) (map irow sub)
               = Ok (map (fun g => map (fun i => nth i a PrimFloat.nan) (irow g)) sub)).
  { rewrite <- (map_map irow (map (fun i => nth i a PrimFloat.nan))).
    apply mapM_ok_map. intros ir Hir. apply in_map_iff in Hir.
    destruct Hir as (g & <- & Hg). apply mapM_ok_map. intros i Hi.
    apply getitem_lt. destruct (H g Hg) as [_ HF].
    rewrite List.Forall_forall in HF. apply HF. exact Hi. }
  rewrite P1. unfold_bind.
  assert (P2 : mapM2 broadcast_mul (map (fun g => map wf (drow g)) sub)
                 (map (fun g => map (fun i => nth i a PrimFloat.nan) (irow g)) sub)
               = Ok (map (fun g => zip_with PrimFloat.mul (map wf (drow g))
                                     (map (fun i => nth i a PrimFloat.nan) (irow g))) sub)).
  { clear P1. induction sub as [|g t IH]; [reflexivity|].
    simpl. unfold_bind.
    rewrite broadcast_mul_same.
    2:{ rewrite !length_map. apply (H g). left. reflexivity. }
    rewrite IH by (intros; apply H; right; assumption). reflexivity. }
  rewrite P2. f_equal.
  rewrite zip_with_map_map. reflexivity.
Qed.

Lemma interpolate_chunk_semantics points u v function k tree st subgrid :
  subgrid <> [] ->
  length u = length points ->
  length v = length points ->
  match tree with Some t => tree_data t = points | None => True end ->
  match k with KInt k => k <= Z.of_nat (length points) | KAll => True end ->
  interpolate_chunk np_exp points u v function k tree st subgrid
  = apply_semantics st subgrid
      (chunk_semantics np_exp points u v function k tree (st_epsilon st)).
Proof.
  intros Hne Hu Hv Htree Hk.
  unfold interpolate_chunk, chunk_semantics, apply_semantics.
  destruct (String.eqb (lower function) "nearest").
  - (* nearest *)
    destruct tree as [tree|]; [|reflexivity]. subst points.
    destruct (length (tree_data tree) =? 0)%nat eqn:EN.
    + apply Nat.eqb_eq in EN.
      assert (Hd : tree_data tree = []) by (destruct (tree_data tree); [reflexivity|discriminate]).
      rewrite (mapM_raise (getitem u) IndexError); [reflexivity| |].
      * destruct subgrid; [congruence|discriminate].
      * intros i Hi. apply in_map_iff in Hi. destruct Hi as (g & <- & _).
        apply getitem_ge. rewrite query1_missing by exact Hd. lia.
    + apply Nat.eqb_neq in EN.
      assert (HL : forall a, length a = length (tree_data tree) ->
                mapM (getitem a) (map (fun g => (query1 tree (grid_point g)).2) subgrid)
                = Ok (map (nearest_value tree a) subgrid)).
      { intros a Ha. rewrite <- (map_map (fun g => (query1 tree (grid_point g)).2)
                                         (fun i => nth i a PrimFloat.nan)).
        apply mapM_ok_map. intros i Hi. apply in_map_iff in Hi.
        destruct Hi as (g & <- & _). apply getitem_lt. rewrite Ha.
        apply query1_index. lia. }
      rewrite (HL u Hu), (HL v Hv). reflexivity.
  - (* inverse, gaussian or unknown *)
    destruct k as [k|].
    + destruct tree as [tree|]; [|reflexivity]. subst points.
      unfold query. destruct (k <? 1) eqn:E1; [reflexivity|].
      unfold_bind. unfold bandwidth.
      destruct (k =? 1) eqn:E2.
      * destruct (weight_function np_exp function _) as [wf|e]; [|reflexivity].
        apply Z.eqb_eq in E2. subst k.
        rewrite (mapM_ok_map (getitem u) (fun i => nth i u PrimFloat.nan)); [reflexivity|].
        intros i Hi. rewrite map_map in Hi. apply in_map_iff in Hi.
        destruct Hi as (g & <- & _). apply getitem_lt. rewrite Hu.
        apply query1_index. lia.
      * destruct (weight_function np_exp function _) as [wf|e]; [|reflexivity].
        apply Z.ltb_ge in E1. apply Z.eqb_neq in E2.
        assert (HW : forall a, length a = length (tree_data tree) ->
                 weighted_average
                   (map (map wf) (map (map fst)
                      (map (query_row tree (Z.to_nat k)) (map grid_point subgrid))))
                   a (map (map snd)
                      (map (query_row tree (Z.to_nat k)) (map grid_point subgrid)))
                 = Ok (map (rbf_knn wf tree (Z.to_nat k) a) subgrid)).
        { intros a Ha. rewrite !map_map.
          rewrite <- (map_map (fun g => query_row tree (Z.to_nat k) (grid_point g)) (map snd)).
          rewrite !map_map.
          apply (weighted_average_map subgrid
                   (fun g => map fst (query_row tree (Z.to_nat k) (grid_point g)))
                   (fun g => map snd (query_row tree (Z.to_nat k) (grid_point g)))).
          intros g _. split; [now rewrite !length_map|].
          rewrite Ha. apply List.Forall_map.
          apply query_row_index. lia. }
        rewrite (HW u Hu), (HW v Hv). reflexivity.
    + (* k == "all" *)
      unfold_bind. unfold bandwidth.
      destruct (weight_function np_exp function _) as [wf|e]; [|reflexivity].
      assert (HW : forall a, length a = length points ->
               weighted_average
                 (map (map wf)
                    (map (fun g => map (fun p => euclidean p (grid_point g)) points) subgrid))
                 a (map (fun _ => seq 0 (length u)) subgrid)
               = Ok (map (rbf_all wf points a) subgrid)).
      { intros a Ha. rewrite map_map.
        rewrite (weighted_average_map subgrid
                   (fun g => map (fun p => euclidean p (grid_point g)) points)
                   (fun _ => seq 0 (length u))).
        - f_equal. apply map_ext. intros g. unfold rbf_all.
          replace (length u) with (length a) by congruence.
          rewrite map_nth_seq. reflexivity.
        - intros g _. split; [rewrite length_map, length_seq; congruence|].
          apply List.Forall_forall. intros i Hi. apply in_seq in Hi. lia. }
      rewrite (HW u Hu), (HW v Hv). reflexivity.
Qed.

End ChunkSemantics.

(** ** The loop over the sub-grids *)

Lemma setslice_length {A} (a : list A) i0 vals :
  (i0 <= length a)%nat -> (i0 + length vals <= length (setslice a i0 vals))%nat.
Proof.
  intros H. unfold setslice. rewrite !length_app, firstn_length_le by exact H. lia.
Qed.

Lemma setslice_app {A} (a : list A) i0 xs ys :
  (i0 <= length a)%nat ->
  setslice (setslice a i0 xs) (i0 + length xs) ys = setslice a i0 (xs ++ ys).
Proof.
  intros H. unfold setslice.
  assert (HL : length (firstn i0 a) = i0) by (apply firstn_length_le; exact H).
  rewrite (app_assoc (firstn i0 a) xs).
  assert (HL2 : length (firstn i0 a ++ xs) = (i0 + length xs)%nat)
    by (rewrite length_app, HL; reflexivity).
  rewrite <- HL2 at 1. rewrite firstn_app, firstn_all, Nat.sub_diag. simpl.
  rewrite app_nil_r.
  replace (i0 + length xs + length ys)%nat
    with (length (firstn i0 a ++ xs) + length ys)%nat by (rewrite HL2; reflexivity).
  rewrite skipn_app, skipn_all2 by lia. simpl.
  replace (length (firstn i0 a ++ xs) + length ys - length (firstn i0 a ++ xs))%nat
    with (length ys) by lia.
  rewrite skipn_skipn, length_app.
  rewrite <- !app_assoc. do 3 f_equal. f_equal. lia.
Qed.

Lemma setslice_app_len {A} (a : list A) i0 xs ys n :
  n = length xs -> (i0 <= length a)%nat ->
  setslice (setslice a i0 xs) (i0 + n) ys = setslice a i0 (xs ++ ys).
Proof. intros ->. apply setslice_app. Qed.

Section LoopSemantics.

Variable np_exp : float -> float.

Lemma weight_function_bandwidth function points epsilon :
  weight_function np_exp function (bandwidth points (Some (bandwidth points epsilon)))
  = weight_function np_exp function (bandwidth points epsilon).
Proof. reflexivity. Qed.

(** The bandwidth chosen in the first turn is the one every later turn
    finds: the point-wise description does not change from turn to turn. *)
Lemma chunk_semantics_stable points u v function k tree epsilon eps' fU fV :
  chunk_semantics np_exp points u v function k tree epsilon = Ok (eps', fU, fV) ->
  chunk_semantics np_exp points u v function k tree eps' = Ok (eps', fU, fV).
Proof.
  unfold chunk_semantics.
  destruct (String.eqb (lower function) "nearest").
  - destruct tree; [|discriminate].
    destruct (length points =? 0)%nat; [discriminate|].
    intros H. injection H as <- <- <-. reflexivity.
  - destruct k as [k|].
    + destruct tree; [|discriminate].
      destruct (k <? 1); [discriminate|]. unfold_bind.
      destruct (weight_function np_exp function (bandwidth points epsilon)) as [wf|e] eqn:E;
        [|discriminate].
      destruct (k =? 1); [discriminate|].
      intros H. injection H as <- <- <-.
      rewrite weight_function_bandwidth, E. reflexivity.
    + unfold_bind.
      destruct (weight_function np_exp function (bandwidth points epsilon)) as [wf|e] eqn:E;
        [|discriminate].
      intros H. injection H as <- <- <-.
      rewrite weight_function_bandwidth, E. reflexivity.
Qed.

Lemma interpolate_loop_semantics points u v function k tree subgrids :
  length u = length points ->
  length v = length points ->
  match tree with Some t => tree_data t = points | None => True end ->
  match k with KInt k => k <= Z.of_nat (length points) | KAll => True end ->
  Forall (fun s => s <> []) subgrids ->
  subgrids <> [] ->
  forall st,
    (st_i0 st <= length (st_U st))%nat ->
    (st_i0 st <= length (st_V st))%nat ->
    interpolate_loop np_exp points u v function k tree st subgrids
    = apply_semantics st (concat subgrids)
        (chunk_semantics np_exp points u v function k tree (st_epsilon st)).
Proof.
  intros Hu Hv Htree Hk Hall.
  induction Hall as [|a rest Ha Hrest IH]; intros Hne st HU HV; [congruence|].
  simpl interpolate_loop.
  rewrite interpolate_chunk_semantics by assumption.
  destruct (chunk_semantics np_exp points u v function k tree (st_epsilon st))
    as [[[eps' fU] fV]|e] eqn:E; [|reflexivity].
  unfold apply_semantics at 1. unfold_bind.
  destruct rest as [|b rest'].
  - simpl. rewrite app_nil_r. reflexivity.
  - rewrite IH; [|discriminate|simpl..].
    + simpl st_epsilon. rewrite (chunk_semantics_stable _ _ _ _ _ _ _ _ _ _ E).
      unfold apply_semantics. unfold_bind. simpl st_U. simpl st_V. simpl st_i0.
      rewrite (setslice_app_len _ _ (map fU a)), (setslice_app_len _ _ (map fV a))
        by (try assumption; now rewrite length_map).
      rewrite <- !map_app. simpl concat. rewrite !length_app.
      f_equal. f_equal. lia.
    + rewrite <- (length_map fU a) at 1. apply setslice_length. exact HU.
    + rewrite <- (length_map fV a) at 1. apply setslice_length. exact HV.
Qed.

End LoopSemantics.

(** ** array_split and the chunk count *)

Lemma split_sizes_concat {A} (sizes : list nat) (l : list A) :
  (length l <= list_sum sizes)%nat -> concat (split_sizes l sizes) = l.
Proof.
  revert l. induction sizes as [|s rest IH]; intros l H; simpl in *.
  - destruct l; [reflexivity|simpl in H; lia].
  - rewrite IH; [apply firstn_skipn|]. rewrite length_skipn. lia.
Qed.

Lemma list_sum_repeat a n : list_sum (repeat a n) = (a * n)%nat.
Proof. induction n; simpl; lia. Qed.

Lemma array_split_concat {A} (ary : list A) (n : Z) :
  1 <= n -> exists pieces, array_split ary n = Ok pieces /\ concat pieces = ary.
Proof.
  intros Hn. unfold array_split.
  destruct (n <=? 0) eqn:E; [apply Z.leb_le in E; lia|].
  eexists. split; [reflexivity|].
  apply split_sizes_concat.
  rewrite list_sum_app, !list_sum_repeat.
  set (N := Z.of_nat (length ary)).
  assert (HN : 0 <= N) by (unfold N; lia).
  pose proof (Z.div_mod N n ltac:(lia)) as Hdm.
  pose proof (Z.mod_pos_bound N n ltac:(lia)) as Hmod.
  assert (Hq : 0 <= N / n) by (apply Z.div_pos; lia).
  apply Nat2Z.inj_le. fold N.
  rewrite Nat2Z.inj_add, !Nat2Z.inj_mul, !Z2Nat.id by lia.
  nia.
Qed.

Lemma array_split_nonpositive {A} (ary : list A) (n : Z) :
  n <= 0 -> array_split ary n = Raise (ValueError "number sections must be larger than 0.").
Proof.
  intros Hn. unfold array_split.
  destruct (n <=? 0) eqn:E; [reflexivity|apply Z.leb_gt in E; lia].
Qed.

Lemma concat_filter_nonempty {A} (pieces : list (list A)) :
  concat (List.filter nonempty pieces) = concat pieces.
Proof.
  induction pieces as [|p t IH]; [reflexivity|].
  simpl. destruct p as [|a p']; simpl; [exact IH|]. now rewrite IH.
Qed.

Lemma filter_nonempty_Forall {A} (pieces : list (list A)) :
  Forall (fun s => s <> []) (List.filter nonempty pieces).
Proof.
  apply List.Forall_forall. intros s Hs. apply filter_In in Hs.
  destruct Hs as [_ Hs]. destruct s; [discriminate|discriminate].
Qed.

Section ChunkInvariance.

Variable np_exp : float -> float.

(** For every positive number of chunks the function computes what the
    unchunked description computes. *)
Lemma interpolate_sparse_vectors_unchunked x y u v domain_size function k epsilon nchunks :
  length u = length x ->
  length v = length x ->
  1 <= nchunks ->
  interpolate_sparse_vectors np_exp x y u v domain_size function k epsilon nchunks
  = interpolate_unchunked np_exp x y u v domain_size function k epsilon.
Proof.
  intros Hu Hv Hn.
  unfold interpolate_sparse_vectors, interpolate_unchunked, column_stack.
  destruct (length x =? length y)%nat eqn:Exy; [|reflexivity].
  apply Nat.eqb_eq in Exy. unfold_bind.
  assert (HP : length (combine x y) = length x)
    by (rewrite length_combine; lia).
  destruct domain_size as [|rows [|cols rest]]; [reflexivity|reflexivity|].
  set (grid := grid_points rows cols).
  destruct (array_split_concat grid nchunks Hn) as (pieces & -> & Hcat).
  set (st0 := {| st_U := repeat PrimFloat.zero (length grid);
                 st_V := repeat PrimFloat.zero (length grid);
                 st_i0 := 0%nat; st_epsilon := epsilon |}).
  assert (Hloop : forall k' tree,
            match tree with Some t => tree_data t = combine x y | None => True end ->
            match k' with KInt k => k <= Z.of_nat (length (combine x y)) | KAll => True end ->
            interpolate_loop np_exp (combine x y) u v function k' tree st0
              (List.filter nonempty pieces)
            = match grid with
              | [] => Ok st0
              | _ => apply_semantics st0 grid
                       (chunk_semantics np_exp (combine x y) u v function k' tree epsilon)
              end).
  { intros k' tree Ht Hk.
    destruct (List.filter nonempty pieces) as [|p ps] eqn:EF.
    - pose proof (concat_filter_nonempty pieces) as HC.
      rewrite EF, Hcat in HC. simpl in HC. rewrite <- HC. reflexivity.
    - assert (HF : Forall (fun s => s <> []) (p :: ps))
        by (rewrite <- EF; apply filter_nonempty_Forall).
      assert (HC : concat (p :: ps) = grid)
        by (rewrite <- EF, concat_filter_nonempty; exact Hcat).
      assert (Hu' : length u = length (combine x y)) by congruence.
      assert (Hv' : length v = length (combine x y)) by congruence.
      assert (Hne : p :: ps <> []) by discriminate.
      assert (H0 : (st_i0 st0 <= length (st_U st0))%nat) by (simpl; lia).
      assert (H0' : (st_i0 st0 <= length (st_V st0))%nat) by (simpl; lia).
      rewrite (interpolate_loop_semantics np_exp (combine x y) u v function k' tree
                 (p :: ps) Hu' Hv' Ht Hk HF Hne st0 H0 H0').
      rewrite HC. simpl st_epsilon.
      destruct grid as [|g gs] eqn:EG; [|reflexivity].
      inversion HF as [|? ? Hp _]; subst. destruct p; [congruence|discriminate]. }
  destruct k as [k|]; simpl.
  - rewrite Hloop; [reflexivity|reflexivity|apply Z.le_min_r].
  - rewrite Hloop; [reflexivity|exact I|exact I].
Qed.

End ChunkInvariance.


(** ** Exceptions raised in the first turn of the loop *)

Lemma length_concat_const {A B} (f : B -> list A) (l : list B) (n : nat) :
  (forall b, length (f b) = n) -> length (concat (map f l)) = (length l * n)%nat.
Proof.
  intros H. induction l as [|b t IH]; [reflexivity|].
  simpl. rewrite length_app, IH, H. lia.
Qed.

Lemma grid_points_length rows cols :
  length (grid_points rows cols) = (rows * cols)%nat.
Proof.
  unfold grid_points, meshgrid_X, meshgrid_Y, arange.
  rewrite length_combine.
  rewrite (length_concat_const _ _ cols), (length_concat_const _ _ cols).
  - rewrite !length_map, !length_seq. lia.
  - intros b. rewrite !length_map, length_seq. reflexivity.
  - intros b. rewrite length_map, length_seq. reflexivity.
Qed.

Lemma grid_points_nonempty rows cols :
  (0 < rows)%nat -> (0 < cols)%nat -> grid_points rows cols <> [].
Proof.
  intros Hr Hc E. apply (f_equal (@length _)) in E.
  rewrite grid_points_length in E. simpl in E. nia.
Qed.

Lemma array_split_first {A} (ary : list A) (n : Z) :
  ary <> [] -> 1 <= n ->
  exists pieces p ps,
    array_split ary n = Ok pieces /\
    List.filter nonempty pieces = p :: ps /\ p <> [].
Proof.
  intros Hne Hn.
  destruct (array_split_concat ary n Hn) as (pieces & E & Hcat).
  exists pieces.
  destruct (List.filter nonempty pieces) as [|p ps] eqn:EF.
  - pose proof (concat_filter_nonempty pieces) as HC.
    rewrite EF, Hcat in HC. simpl in HC. congruence.
  - exists p, ps. split; [exact E|]. split; [reflexivity|].
    pose proof (filter_nonempty_Forall pieces) as HF. rewrite EF in HF.
    inversion HF; assumption.
Qed.

Section FirstTurn.

Variable np_exp : float -> float.

Lemma interpolate_chunk_unknown points u v function k tree st subgrid :
  known_function function = false ->
  raises (interpolate_chunk np_exp points u v function k tree st subgrid).
Proof.
  unfold known_function. intros H.
  apply orb_false_elim in H. destruct H as [H Hg].
  apply orb_false_elim in H. destruct H as [Hn Hi].
  unfold interpolate_chunk, raises. rewrite Hn.
  assert (HW : forall eps, weight_function np_exp function eps
                 = Raise (ValueError ("unknown radial fucntion " ++ function))).
  { intros eps. unfold weight_function. rewrite Hi, Hg. reflexivity. }
  destruct k as [k|].
  - destruct tree as [tree|]; [|eexists; reflexivity].
    destruct (query tree (map grid_point subgrid) k) as [nb|e];
      [|eexists; reflexivity].
    unfold_bind. rewrite HW. eexists; reflexivity.
  - unfold_bind. rewrite HW. eexists; reflexivity.
Qed.

Lemma interpolate_chunk_unbound points u v function st subgrid :
  lower function = "nearest" ->
  interpolate_chunk np_exp points u v function KAll None st subgrid
  = Raise (UnboundLocalError "tree").
Proof. intros H. unfold interpolate_chunk. rewrite H. reflexivity. Qed.

End FirstTurn.

(** C8. With a kernel name that is, in lower case, none of ["nearest"],
    ["inverse"], ["gaussian"], on a grid with at least one point,
    [interpolate_sparse_vectors] raises an exception, whatever the samples,
    the neighbour count, the bandwidth and the chunk count are. *)
Theorem unknown_kernel_raises (np_exp : float -> float)
  (x y u v : list float) (rows cols : nat) (function : string)
  (k : neighbour_count) (epsilon : option float) (nchunks : Z) :
  known_function function = false ->
  (0 < rows)%nat -> (0 < cols)%nat ->
  raises (interpolate_sparse_vectors np_exp x y u v [rows; cols] function k
            epsilon nchunks).
Proof.
  intros Hf Hr Hc. unfold interpolate_sparse_vectors, column_stack.
  destruct (length x =? length y)%nat; [|eexists; reflexivity].
  unfold_bind.
  destruct (Z_le_gt_dec nchunks 0) as [Hn|Hn].
  { rewrite array_split_nonpositive by exact Hn.
    destruct k; eexists; reflexivity. }
  destruct (array_split_first (grid_points rows cols) nchunks
              (grid_points_nonempty rows cols Hr Hc) ltac:(lia))
    as (pieces & p & ps & -> & -> & Hp).
  assert (HL : forall k' tree st,
            raises (interpolate_loop np_exp (combine x y) u v function k' tree st (p :: ps))).
  { intros k' tree st. simpl.
    destruct (interpolate_chunk_unknown np_exp (combine x y) u v function k' tree st p Hf)
      as [e ->].
    exists e. reflexivity. }
  destruct k as [k|]; cbv beta iota zeta;
    match goal with
    | |- context [interpolate_loop _ _ _ _ _ ?k' ?tree ?st _] =>
        destruct (HL k' tree st) as [e He]
    end;
    unfold raises; rewrite He; exists e; reflexivity.
Qed.

(** With well-formed inputs the exception is the [ValueError] of the
    function itself. *)
Lemma unknown_kernel_value_error (np_exp : float -> float)
  (x y u v : list float) (rows cols : nat) (function : string)
  (epsilon : option float) (nchunks : Z) :
  known_function function = false ->
  length x = length y ->
  (0 < rows)%nat -> (0 < cols)%nat ->
  1 <= nchunks ->
  interpolate_sparse_vectors np_exp x y u v [rows; cols] function KAll
    epsilon nchunks
  = Raise (ValueError ("unknown radial fucntion " ++ function)).
Proof.
  intros Hf Hxy Hr Hc Hn. unfold interpolate_sparse_vectors, column_stack.
  rewrite Hxy, Nat.eqb_refl. unfold_bind.
  destruct (array_split_first (grid_points rows cols) nchunks
              (grid_points_nonempty rows cols Hr Hc) Hn)
    as (pieces & p & ps & -> & -> & Hp).
  unfold known_function in Hf.
  apply orb_false_elim in Hf. destruct Hf as [Hf Hg].
  apply orb_false_elim in Hf. destruct Hf as [Hnn Hi].
  simpl. unfold_bind. unfold interpolate_chunk, weight_function.
  rewrite Hnn, Hi, Hg. reflexivity.
Qed.


(** C2 (failing input). With kernel ["nearest"] and [k = "all"] the k-d tree
    is never built, and the first turn of the loop raises
    [UnboundLocalError] instead of returning the nearest sample's velocity. *)
Theorem nearest_all_unbound_tree (np_exp : float -> float)
  (x y u v : list float) (rows cols : nat) (function : string)
  (epsilon : option float) (nchunks : Z) :
  lower function = "nearest" ->
  length x = length y ->
  (0 < rows)%nat -> (0 < cols)%nat ->
  1 <= nchunks ->
  interpolate_sparse_vectors np_exp x y u v [rows; cols] function KAll
    epsilon nchunks
  = Raise (UnboundLocalError "tree").
Proof.
  intros Hf Hxy Hr Hc Hn. unfold interpolate_sparse_vectors, column_stack.
  rewrite Hxy, Nat.eqb_refl. unfold_bind.
  destruct (array_split_first (grid_points rows cols) nchunks
              (grid_points_nonempty rows cols Hr Hc) Hn)
    as (pieces & p & ps & -> & -> & Hp).
  simpl. unfold_bind. rewrite interpolate_chunk_unbound by exact Hf. reflexivity.
Qed.

(** C6 (failing input). With kernel ["inverse"] or ["gaussian"] and one
    neighbour in use (k = 1, or a single sample with any k >= 1), the
    squeezed result of the tree query makes [np.sum(..., axis=1)] raise
    [AxisError]: no weighted average is returned. *)
Theorem single_neighbour_axis_error (np_exp : float -> float)
  (x y u v : list float) (rows cols : nat) (function : string)
  (k : Z) (epsilon : option float) (nchunks : Z) :
  lower function = "inverse" \/ lower function = "gaussian" ->
  length y = length x -> length u = length x -> length v = length x ->
  (1 <= length x)%nat ->
  1 <= k ->
  k = 1 \/ length x = 1%nat ->
  (0 < rows)%nat -> (0 < cols)%nat ->
  1 <= nchunks ->
  interpolate_sparse_vectors np_exp x y u v [rows; cols] function (KInt k)
    epsilon nchunks
  = Raise AxisError.
Proof.
  intros Hf Hy Hu Hv Hx Hk H1 Hr Hc Hn.
  rewrite interpolate_sparse_vectors_unchunked by assumption.
  unfold interpolate_unchunked, column_stack.
  rewrite Hy, Nat.eqb_refl. unfold_bind. cbv beta iota zeta.
  assert (HP : length (combine x y) = length x) by (rewrite length_combine; lia).
  unfold point in *. rewrite HP.
  assert (Hmin : Z.min k (Z.of_nat (length x)) = 1).
  { destruct H1 as [-> | H1]; [|rewrite H1 in *]; lia. }
  rewrite Hmin.
  pose proof (grid_points_nonempty rows cols Hr Hc) as Hg.
  destruct (grid_points rows cols) as [|g gs] eqn:EG; [congruence|].
  unfold chunk_semantics, weight_function.
  destruct Hf as [-> | ->]; reflexivity.
Qed.

(** ** The value at a grid point *)


Lemma nth_map_seq {A} (g : nat -> A) (n i : nat) (d : A) :
  (i < n)%nat -> nth i (map g (seq 0 n)) d = g i.
Proof.
  intros Hi. rewrite (nth_indep _ d (g 0%nat)) by (rewrite length_map, length_seq; exact Hi).
  rewrite map_nth, seq_nth by exact Hi. reflexivity.
Qed.

Lemma nth_arange (n i : nat) (d : Z) :
  (i < n)%nat -> nth i (arange n) d = Z.of_nat i.
Proof. intros Hi. unfold arange. apply nth_map_seq. exact Hi. Qed.





Section WholeGrid.

Variable np_exp : float -> float.


End WholeGrid.

(** ** The theorems on concrete inputs *)


Lemma unknown_kernel_raises_witness :
  raises (interpolate_sparse_vectors exp_series two_x two_y two_u two_v
            [2%nat; 4%nat] "Linear" (KInt 20) None 5).
Proof.
  apply unknown_kernel_raises; [reflexivity|lia|lia].
Defined.

Lemma nearest_all_unbound_tree_witness :
  interpolate_sparse_vectors exp_series two_x two_y two_u two_v [2%nat; 4%nat]
    "nearest" KAll None 5
  = Raise (UnboundLocalError "tree").
Proof.
  apply nearest_all_unbound_tree; [reflexivity|reflexivity|lia|lia|lia].
Defined.

Lemma single_neighbour_axis_error_witness :
  interpolate_sparse_vectors exp_series one_x one_y one_u one_v [2%nat; 4%nat]
    "inverse" (KInt 20) (Some PrimFloat.one) 5
  = Raise AxisError.
Proof.
  apply single_neighbour_axis_error;
    [left; reflexivity|reflexivity|reflexivity|reflexivity|simpl; lia|lia
    |right; reflexivity|lia|lia|lia].
Defined.

(** The same inputs, run. *)
Example nearest_two_samples :
  interpolate_sparse_vectors exp_series two_x two_y two_u two_v [1%nat; 4%nat]
    "nearest" (KInt 20) None 3
  = Ok {| X := [[0; 1; 2; 3]]; Y := [[0; 0; 0; 0]];
          U := [[F64.of_Z 1; F64.of_Z 1; F64.of_Z 2; F64.of_Z 2]];
          V := [[F64.of_Z 5; F64.of_Z 5; F64.of_Z 6; F64.of_Z 6]] |}.
Proof. vm_compute. reflexivity. Qed.

Example inverse_one_sample_all :
  interpolate_sparse_vectors exp_series one_x one_y one_u one_v [1%nat; 2%nat]
    "inverse" KAll (Some PrimFloat.one) 5
  = Ok {| X := [[0; 1]]; Y := [[0; 0]];
          U := [[F64.of_Z 1; F64.of_Z 1]];
          V := [[F64.of_Z 2; F64.of_Z 2]] |}.
Proof. vm_compute. reflexivity. Qed.

(** ** The outlier filter *)





(** ** Declustering returns one representative per cell *)










(** ** The distinct cells *)








(** ** The rules of the state monad *)

Lemma hoare_ret {A} (P : state -> Prop) (a : A) (Q : A -> state -> Prop) E :
  (forall s, P s -> Q a s) -> hoare P (mret a) Q E.
Proof. intros H s Hs. simpl. apply H. exact Hs. Qed.

Lemma hoare_bind {A B} (P : state -> Prop) (m : M A) (f : A -> M B)
  (Q : A -> state -> Prop) (Q' : B -> state -> Prop) E :
  hoare P m Q E -> (forall a, hoare (Q a) (f a) Q' E) -> hoare P (m ≫= f) Q' E.
Proof.
  intros Hm Hf s Hs. specialize (Hm s Hs). simpl.
  destruct (runM m s) as [[a|e] s'].
  - apply Hf. exact Hm.
  - exact Hm.
Qed.

Lemma hoare_lift {A} (P : state -> Prop) (r : result A) (Q : A -> state -> Prop) E :
  (forall s, P s -> E s) -> (forall a s, r = Ok a -> P s -> Q a s) ->
  hoare P (lift r) Q E.
Proof.
  intros HE HQ s Hs. simpl. destruct r; [apply HQ; [reflexivity|]|apply HE]; exact Hs.
Qed.

Lemma hoare_weaken {A} (P P' : state -> Prop) (m : M A)
  (Q Q' : A -> state -> Prop) E :
  hoare P' m Q' E -> (forall s, P s -> P' s) -> (forall a s, Q' a s -> Q a s) ->
  hoare P m Q E.
Proof.
  intros H HP HQ s Hs. specialize (H s (HP s Hs)).
  destruct (runM m s) as [[a|e] s']; [apply HQ|]; exact H.
Qed.

Lemma hoare_pure {A} (P : state -> Prop) (phi : Prop) (m : M A)
  (Q : A -> state -> Prop) E :
  (phi -> hoare P m Q E) -> hoare (fun s => P s /\ phi) m Q E.
Proof. intros H s [Hs Hphi]. apply H; assumption. Qed.

Section Frame.

Variable h0 : list buffer.
Variable l0 : list event.
Variable w : pyval.

Local Abbreviation Inv := (kept h0 l0 w).

Lemma kept_alloc s b :
  Inv s -> Inv {| heap := heap s ++ [b]; log := log s |}.
Proof.
  intros [Hh Hl]. split; [|exact Hl]. simpl.
  apply prefix_app_r. exact Hh.
Qed.

Lemma kept_store s i b :
  (length h0 <= i)%nat -> Inv s -> Inv {| heap := <[i := b]> (heap s); log := log s |}.
Proof.
  intros Hi [[k Hh] Hl]. split; [|exact Hl]. simpl.
  rewrite Hh, insert_app_r_alt by exact Hi.
  eexists. reflexivity.
Qed.

Lemma kept_emit s ev :
  window_used w ev -> Inv s -> Inv {| heap := heap s; log := log s ++ [ev] |}.
Proof.
  intros Hev [Hh (new & Hl & HF)]. split; [exact Hh|].
  exists (new ++ [ev]). simpl. split.
  - rewrite Hl, app_assoc. reflexivity.
  - apply Forall_app. split; [exact HF|]. constructor; [exact Hev|constructor].
Qed.

Lemma hoare_load a : hoare Inv (load a) (fun _ => Inv) Inv.
Proof.
  intros s Hs. simpl. destruct (heap s !! base a) as [[d|d]|]; exact Hs.
Qed.

Lemma hoare_load_floats a : hoare Inv (load_floats a) (fun _ => Inv) Inv.
Proof.
  unfold load_floats. eapply hoare_bind; [apply hoare_load|].
  intros [d|d]; apply hoare_ret; auto.
Qed.

Lemma hoare_load_image a : hoare Inv (load_image a) (fun _ => Inv) Inv.
Proof.
  unfold load_image. eapply hoare_bind; [apply hoare_load|].
  intros [d|d]; [apply hoare_lift|apply hoare_ret]; auto.
Qed.

Lemma hoare_alloc sh b :
  hoare Inv (alloc sh b) (fun a s => Inv s /\ fresh h0 a) Inv.
Proof.
  intros s Hs. simpl. split; [apply kept_alloc; exact Hs|].
  unfold fresh. simpl. destruct Hs as [[k Hh] _]. rewrite Hh, length_app. lia.
Qed.

Lemma hoare_store a b :
  fresh h0 a -> hoare Inv (store a b) (fun _ => Inv) Inv.
Proof.
  intros Ha s Hs. simpl.
  destruct (heap s !! base a) as [[d|d]|]; destruct b as [v|v];
    try exact Hs; apply kept_store; assumption.
Qed.

Lemma hoare_emit ev :
  window_used w ev -> hoare Inv (emit ev) (fun _ => Inv) Inv.
Proof. intros Hev s Hs. simpl. apply kept_emit; assumption. Qed.

Lemma hoare_lift_inv {A} (r : result A) : hoare Inv (lift r) (fun _ => Inv) Inv.
Proof. apply hoare_lift; auto. Qed.

Lemma hoare_copy a :
  hoare Inv (copy a) (fun r s => Inv s /\ fresh h0 r) Inv.
Proof.
  unfold copy. eapply hoare_bind; [apply hoare_load|].
  intros b. apply hoare_alloc.
Qed.

Lemma hoare_rescale a :
  hoare Inv (rescale a) (fun r s => Inv s /\ fresh h0 r) Inv.
Proof.
  unfold rescale. eapply hoare_bind; [apply hoare_load_floats|].
  intros d. eapply hoare_bind; [apply hoare_lift_inv|].
  intros d'. apply hoare_alloc.
Qed.

Lemma hoare_astype_uint8 a :
  hoare Inv (astype_uint8 a) (fun r s => Inv s /\ fresh h0 r) Inv.
Proof.
  unfold astype_uint8. eapply hoare_bind; [apply hoare_load_floats|].
  intros d. apply hoare_alloc.
Qed.

End Frame.

(** ** The pipeline keeps the buffers it was given *)

Section PipelineFrame.

Variable cv2_getStructuringElement : pyval -> result (list (list Z)).
Variable cv2_morphologyEx : image -> list (list Z) -> result (list Z).
Variable cv2_goodFeaturesToTrack :
  image -> pyval -> pyval -> pyval -> pyval -> result (option (list point)).
Variable cv2_calcOpticalFlowPyrLK :
  image -> image -> list point -> pyval -> pyval ->
  result (list point * list Z * list float).
Variable np_exp : float -> float.

Variable h0 : list buffer.
Variable l0 : list event.
Variable w : pyval.

Local Abbreviation Inv := (kept h0 l0 w).

Ltac step lem := eapply hoare_bind; [apply lem|]; intros.
Ltac destruct_tuple :=
  match goal with
  | |- hoare _ (match ?a with _ => _ end) _ _ => destruct a as [[[? ?] ?] ?]
  end.
Ltac step_lift := eapply hoare_bind; [apply hoare_lift_inv|]; intros.
Ltac step_fresh lem :=
  eapply hoare_bind; [apply lem|]; intros ?; apply hoare_pure; intros ?.

(** [clean_image] writes into the array it is given only. *)
Lemma hoare_clean_image R n :
  fresh h0 R ->
  hoare Inv (clean_image cv2_getStructuringElement cv2_morphologyEx R n)
    (fun r s => Inv s /\ fresh h0 r) Inv.
Proof.
  intros HR. unfold clean_image.
  step hoare_load. step_lift.
  step hoare_emit; [exact I|].
  step_lift. step_lift. step_lift.
  step hoare_store; [exact HR|].
  apply hoare_ret. intros s Hs. split; assumption.
Qed.

Lemma hoare_ShiTomasi R a b c d :
  hoare Inv (ShiTomasi_features_to_track cv2_goodFeaturesToTrack R a b c d)
    (fun _ => Inv) Inv.
Proof.
  unfold ShiTomasi_features_to_track.
  destruct (negb (length (shape R) =? 2)%nat); [apply hoare_lift_inv|].
  step hoare_load_image.
  step hoare_emit; [exact I|].
  step_lift.
  match goal with |- hoare _ (match ?p with _ => _ end) _ _ => destruct p end;
    [apply hoare_ret; auto|apply hoare_lift_inv].
Qed.

Lemma hoare_LucasKanade prvs next p0 nr :
  hoare Inv (LucasKanade_features_tracking cv2_calcOpticalFlowPyrLK prvs next p0 w nr)
    (fun _ => Inv) Inv.
Proof.
  unfold LucasKanade_features_tracking.
  step hoare_load_image. step hoare_load_image.
  step hoare_emit; [reflexivity|].
  step_lift.
  match goal with a : _ * _ * _ |- _ => destruct a as [[p1 st] err] end.
  step_lift. step_lift. step_lift.
  apply hoare_ret. auto.
Qed.

Lemma hoare_frame_pair R opts acc n :
  winsize_LK opts = w ->
  hoare Inv (frame_pair cv2_getStructuringElement cv2_morphologyEx
               cv2_goodFeaturesToTrack cv2_calcOpticalFlowPyrLK R opts acc n)
    (fun _ => Inv) Inv.
Proof.
  intros Hw. unfold frame_pair. destruct acc as [[[y0S x0S] uS] vS].
  step_fresh hoare_copy. step_fresh hoare_copy.
  step_fresh hoare_rescale. step_fresh hoare_rescale.
  step_fresh hoare_astype_uint8. step_fresh hoare_astype_uint8.
  eapply hoare_bind; [apply hoare_clean_image; assumption|].
  intros prvs. apply hoare_pure. intros Hprvs.
  eapply hoare_bind; [apply hoare_clean_image; assumption|].
  intros next. apply hoare_pure. intros Hnext.
  step hoare_ShiTomasi.
  rewrite Hw. step hoare_LucasKanade.
  destruct_tuple. step_lift. step_lift. step_lift.
  destruct_tuple. apply hoare_ret. auto.
Qed.

Lemma hoare_frame_loop R opts ns : forall acc,
  winsize_LK opts = w ->
  hoare Inv (frame_loop cv2_getStructuringElement cv2_morphologyEx
               cv2_goodFeaturesToTrack cv2_calcOpticalFlowPyrLK R opts acc ns)
    (fun _ => Inv) Inv.
Proof.
  induction ns as [|n rest IH]; intros acc Hw; simpl.
  - apply hoare_ret. auto.
  - step hoare_frame_pair; [exact Hw|]. apply IH. exact Hw.
Qed.

Lemma check_inputs_options sh data kwargs opts :
  check_inputs sh data kwargs = Ok opts -> opts = read_options kwargs.
Proof.
  unfold check_inputs. unfold_bind.
  destruct (check_R sh data); [|discriminate].
  destruct (check_extra_vectors _); [|discriminate].
  congruence.
Qed.

Lemma hoare_dense_lucaskanade R kwargs :
  kwargs_get kwargs "winsize_LK5" (VPair 50 50) = w ->
  hoare Inv (dense_lucaskanade cv2_getStructuringElement cv2_morphologyEx
               cv2_goodFeaturesToTrack cv2_calcOpticalFlowPyrLK np_exp R kwargs)
    (fun _ => Inv) Inv.
Proof.
  intros Hw. unfold dense_lucaskanade.
  step hoare_load_floats.
  eapply hoare_bind.
  { apply (hoare_lift Inv _ (fun opts s => Inv s /\ winsize_LK opts = w)); [auto|].
    intros opts s Hopts Hs. split; [exact Hs|].
    apply check_inputs_options in Hopts. subst opts. exact Hw. }
  intros opts. apply hoare_pure. intros Hopts.
  step hoare_frame_loop; [exact Hopts|].
  destruct_tuple.
  step_lift. step_lift. step_lift.
  destruct (append_extra_vectors _ _) as [[[x y] u] v].
  step_lift. step_lift. step_lift. step_lift. step_lift.
  apply hoare_ret. auto.
Qed.

End PipelineFrame.

(** ** Facts on binary64 values *)



Lemma ltb_irrefl x : PrimFloat.ltb x x = false.
Proof.
  rewrite FloatAxioms.ltb_spec. unfold SpecFloat.SFltb, SpecFloat.SFcompare.
  destruct (Prim2SF x) as [s|s| |s m e]; try (destruct s; reflexivity); try reflexivity.
  destruct s; rewrite Z.compare_refl, Pos.compare_cont_refl; reflexivity.
Qed.






(** ** The order of binary64 values *)

Lemma compare_cont_Lt_trans m1 m2 m3 :
  Pos.compare_cont Eq m1 m2 = Lt -> Pos.compare_cont Eq m2 m3 = Lt ->
  Pos.compare_cont Eq m1 m3 = Lt.
Proof.
  change (Pos.compare_cont Eq) with Pos.compare.
  rewrite !Pos.compare_lt_iff. lia.
Qed.

Lemma compare_cont_Gt_trans m1 m2 m3 :
  Pos.compare_cont Eq m1 m2 = Gt -> Pos.compare_cont Eq m2 m3 = Gt ->
  Pos.compare_cont Eq m1 m3 = Gt.
Proof.
  change (Pos.compare_cont Eq) with Pos.compare.
  rewrite !Pos.compare_gt_iff. lia.
Qed.

Lemma lex_compare_Lt_trans e1 m1 e2 m2 e3 m3 :
  lex_compare e1 m1 e2 m2 = Lt -> lex_compare e2 m2 e3 m3 = Lt ->
  lex_compare e1 m1 e3 m3 = Lt.
Proof.
  unfold lex_compare.
  destruct (e1 ?= e2) eqn:E1; destruct (e2 ?= e3) eqn:E2; try discriminate;
    rewrite ?Z.compare_eq_iff, ?Z.compare_lt_iff in *; intros H1 H2.
  - subst. rewrite Z.compare_refl. eapply compare_cont_Lt_trans; eassumption.
  - subst. apply Z.compare_lt_iff in E2. rewrite E2. reflexivity.
  - subst. apply Z.compare_lt_iff in E1. rewrite E1. reflexivity.
  - assert (E3 : e1 < e3) by lia. apply Z.compare_lt_iff in E3. rewrite E3. reflexivity.
Qed.

Lemma lex_compare_Gt_trans e1 m1 e2 m2 e3 m3 :
  lex_compare e1 m1 e2 m2 = Gt -> lex_compare e2 m2 e3 m3 = Gt ->
  lex_compare e1 m1 e3 m3 = Gt.
Proof.
  unfold lex_compare.
  destruct (e1 ?= e2) eqn:E1; destruct (e2 ?= e3) eqn:E2; try discriminate;
    rewrite ?Z.compare_eq_iff, ?Z.compare_gt_iff in *; intros H1 H2.
  - subst. rewrite Z.compare_refl. eapply compare_cont_Gt_trans; eassumption.
  - subst. apply Z.compare_gt_iff in E2. rewrite E2. reflexivity.
  - subst. apply Z.compare_gt_iff in E1. rewrite E1. reflexivity.
  - assert (E3 : e3 < e1) by lia. apply Z.compare_gt_iff in E3. rewrite E3. reflexivity.
Qed.

Lemma lex_compare_opp e1 m1 e2 m2 :
  match e1 ?= e2 with
  | Lt => Gt
  | Gt => Lt
  | Eq => CompOpp (Pos.compare_cont Eq m1 m2)
  end = CompOpp (lex_compare e1 m1 e2 m2).
Proof. unfold lex_compare. destruct (e1 ?= e2); reflexivity. Qed.

Lemma SFltb_trans a b c :
  SpecFloat.SFltb a b = true -> SpecFloat.SFltb b c = true ->
  SpecFloat.SFltb a c = true.
Proof.
  unfold SpecFloat.SFltb, SpecFloat.SFcompare.
  destruct a as [sa|sa| |sa ma ea], b as [sb|sb| |sb mb eb], c as [sc|sc| |sc mc ec];
    try discriminate;
    try (destruct sa; discriminate); try (destruct sb; discriminate);
    try (destruct sa, sb; discriminate);
    try (destruct sa, sb, sc; (discriminate || reflexivity)).
  destruct sa, sb, sc; try discriminate; try reflexivity.
  - rewrite !lex_compare_opp.
    destruct (lex_compare ea ma eb mb) eqn:C1; try discriminate.
    destruct (lex_compare eb mb ec mc) eqn:C2; try discriminate.
    rewrite (lex_compare_Gt_trans _ _ _ _ _ _ C1 C2). reflexivity.
  - fold (lex_compare ea ma eb mb). fold (lex_compare eb mb ec mc).
    fold (lex_compare ea ma ec mc).
    destruct (lex_compare ea ma eb mb) eqn:C1; try discriminate.
    destruct (lex_compare eb mb ec mc) eqn:C2; try discriminate.
    rewrite (lex_compare_Lt_trans _ _ _ _ _ _ C1 C2). reflexivity.
Qed.

Lemma ltb_trans a b c :
  PrimFloat.ltb a b = true -> PrimFloat.ltb b c = true -> PrimFloat.ltb a c = true.
Proof. rewrite !FloatAxioms.ltb_spec. apply SFltb_trans. Qed.

(** ** The nearest neighbour is a nearest sample, the first of them *)





(** ** What the three kernels return *)

Section Kernels.

Variable np_exp : float -> float.






End Kernels.

(** ** The neighbours are all the samples, nearest first *)

Lemma ltb_asym a b : PrimFloat.ltb a b = true -> PrimFloat.ltb b a = false.
Proof.
  intros H. destruct (PrimFloat.ltb b a) eqn:E; [|reflexivity].
  pose proof (ltb_trans _ _ _ H E) as C. rewrite ltb_irrefl in C. discriminate.
Qed.

Lemma insert_neighbour_perm c l : Permutation (insert_neighbour c l) (c :: l).
Proof.
  induction l as [|c' t IH]; simpl; [reflexivity|].
  destruct (PrimFloat.ltb c.1 c'.1); [reflexivity|].
  rewrite IH. apply perm_swap.
Qed.

Lemma insert_neighbour_sorted c l :
  StronglySorted not_nearer l -> StronglySorted not_nearer (insert_neighbour c l).
Proof.
  intros H. induction H as [|c' t Ht IH Hc']; simpl.
  - constructor; constructor.
  - destruct (PrimFloat.ltb c.1 c'.1) eqn:E.
    + constructor; [constructor; assumption|].
      constructor; [apply ltb_asym; exact E|].
      rewrite List.Forall_forall in *. intros x Hx. specialize (Hc' x Hx).
      unfold not_nearer in *.
      destruct (PrimFloat.ltb x.1 c.1) eqn:Ex; [|reflexivity].
      rewrite (ltb_trans _ _ _ Ex E) in Hc'. discriminate.
    + constructor; [exact IH|].
      rewrite List.Forall_forall in *. intros x Hx.
      apply (Permutation_in _ (insert_neighbour_perm c t)) in Hx.
      destruct Hx as [<-|Hx]; [exact E|apply Hc'; exact Hx].
Qed.

Lemma fold_insert_perm cs acc :
  Permutation (fold_left (fun acc c => insert_neighbour c acc) cs acc) (cs ++ acc).
Proof.
  revert acc. induction cs as [|c t IH]; intros acc; simpl; [reflexivity|].
  rewrite IH, insert_neighbour_perm. symmetry. apply Permutation_middle.
Qed.

Lemma fold_insert_sorted cs acc :
  StronglySorted not_nearer acc ->
  StronglySorted not_nearer (fold_left (fun acc c => insert_neighbour c acc) cs acc).
Proof.
  revert acc. induction cs as [|c t IH]; intros acc H; simpl; [exact H|].
  apply IH, insert_neighbour_sorted, H.
Qed.

(** Every sample appears once, with its distance and its index. *)
Lemma neighbours_perm tree q :
  Permutation (neighbours tree q)
              (imap (fun i p => (euclidean p q, i)) (tree_data tree)).
Proof. unfold neighbours. rewrite fold_insert_perm, app_nil_r. reflexivity. Qed.

(** No neighbour is strictly nearer than one listed before it. *)
Lemma neighbours_sorted tree q : StronglySorted not_nearer (neighbours tree q).
Proof. apply fold_insert_sorted. constructor. Qed.

(** The [k] neighbours a query returns are nearest: no sample left out is
    strictly nearer than one of them. *)
Lemma query_row_nearest tree k q a b :
  (k <= length (tree_data tree))%nat ->
  In a (query_row tree k q) -> In b (skipn k (neighbours tree q)) ->
  not_nearer a b.
Proof.
  intros Hk Ha Hb. unfold query_row in Ha.
  rewrite firstn_length_le in Ha by (rewrite neighbours_length; exact Hk).
  rewrite Nat.sub_diag in Ha. simpl in Ha. rewrite app_nil_r in Ha.
  pose proof (neighbours_sorted tree q) as HS.
  rewrite <- (firstn_skipn k (neighbours tree q)) in HS.
  revert Ha HS. generalize (firstn k (neighbours tree q)) as l. intros l.
  induction l as [|c l IH]; intros Ha HS; [destruct Ha|].
  simpl in HS. inversion HS as [|? ? HS' HF]; subst.
  destruct Ha as [->|Ha]; [|apply IH; assumption].
  rewrite List.Forall_forall in HF. apply HF. apply in_or_app. right. exact Hb.
Qed.

(** ** Validation *)

Lemma existsb_negb {A} (f : A -> bool) (l : list A) :
  existsb (fun a => negb (f a)) l = negb (forallb f l).
Proof.
  induction l as [|a t IH]; [reflexivity|].
  simpl. rewrite IH. destruct (f a); reflexivity.
Qed.

Lemma check_extra_vectors_valid extra :
  valid_extra_vectors extra = true <-> check_extra_vectors extra = Ok tt.
Proof.
  unfold valid_extra_vectors, check_extra_vectors.
  destruct extra as [|b|z|f|s0|a b|sh data];
    [split; reflexivity|split; discriminate..|].
  destruct (length sh =? 2)%nat; simpl; [|split; discriminate].
  destruct (nth 1 sh 0 =? 4)%nat; simpl; split; try discriminate; reflexivity.
Qed.

Lemma check_inputs_valid sh data kwargs :
  valid_inputs sh data kwargs = true ->
  check_inputs sh data kwargs = Ok (read_options kwargs).
Proof.
  unfold valid_inputs, check_inputs, check_R. intros H.
  apply andb_prop in H. destruct H as [H He].
  apply andb_prop in H. destruct H as [H Hf].
  apply andb_prop in H. destruct H as [Hd Ht].
  rewrite Hd. cbn [negb].
  apply Nat.leb_le in Ht.
  destruct (nth 0 sh 0 <? 2)%nat eqn:E; [apply Nat.ltb_lt in E; lia|].
  rewrite existsb_negb, Hf. unfold_bind. cbn [negb].
  apply check_extra_vectors_valid in He. unfold read_options at 1. cbn [extra_vectors].
  rewrite He. reflexivity.
Qed.

Lemma check_inputs_invalid sh data kwargs :
  valid_inputs sh data kwargs = false ->
  raises (check_inputs sh data kwargs).
Proof.
  unfold valid_inputs, check_inputs, check_R, raises. intros H. unfold_bind.
  destruct (length sh =? 3)%nat; cbn [negb]; [|eexists; reflexivity].
  destruct (nth 0 sh 0 <? 2)%nat eqn:Et; [eexists; reflexivity|].
  apply Nat.ltb_ge in Et.
  assert (Ht : (2 <=? nth 0 sh 0)%nat = true) by (apply Nat.leb_le; exact Et).
  rewrite Ht in H. rewrite existsb_negb.
  destruct (forallb PrimFloat.is_finite data); cbn [negb andb] in *;
    [|eexists; reflexivity].
  unfold read_options at 1. cbn [extra_vectors].
  destruct (check_extra_vectors (kwargs_get kwargs "extra_vectors" VNone)) as [[]|e] eqn:E;
    [|eexists; reflexivity].
  apply check_extra_vectors_valid in E. congruence.
Qed.

Section PipelineProperties.

Variable cv2_getStructuringElement : pyval -> result (list (list Z)).
Variable cv2_morphologyEx : image -> list (list Z) -> result (list Z).
Variable cv2_goodFeaturesToTrack :
  image -> pyval -> pyval -> pyval -> pyval -> result (option (list point)).
Variable cv2_calcOpticalFlowPyrLK :
  image -> image -> list point -> pyval -> pyval ->
  result (list point * list Z * list float).
Variable np_exp : float -> float.

Local Abbreviation run := (dense_lucaskanade cv2_getStructuringElement
  cv2_morphologyEx cv2_goodFeaturesToTrack cv2_calcOpticalFlowPyrLK np_exp).

(** C7. For an array [R] in memory: inputs that are three-dimensional with
    at least two frames and finite values, with [extra_vectors] absent or
    two-dimensional with four columns, pass the checks; every other input
    makes the call raise in the state it started from, with no OpenCV call
    made and no array created. *)
Theorem input_validation (R : ndarray) (kwargs : gmap string pyval)
  (s : state) (d : list float) :
  heap s !! base R = Some (FloatBuf d) ->
  (valid_inputs (shape R) (view_values R d) kwargs = true ->
   check_inputs (shape R) (view_values R d) kwargs = Ok (read_options kwargs)) /\
  (valid_inputs (shape R) (view_values R d) kwargs = false ->
   exists e, runM (run R kwargs) s = (Raise e, s)).
Proof.
  intros HR. split; [apply check_inputs_valid|].
  intros Hinv. destruct (check_inputs_invalid _ _ _ Hinv) as [e He].
  exists e. unfold dense_lucaskanade. simpl. rewrite HR. simpl.
  unfold view_values in He. rewrite He. reflexivity.
Qed.

(** C3 (failing input). When the caller supplies the documented keyword
    [winsize_LK], and not the key ["winsize_LK5"] that the code reads, every
    call of the tracker in the run uses the window (50, 50), whatever the
    value supplied. *)
Theorem winsize_LK_ignored (R : ndarray) (kwargs : gmap string pyval)
  (wv : pyval) (s : state) :
  kwargs !! "winsize_LK5" = None ->
  Forall (window_used (VPair 50 50))
    (skipn (length (log s))
       (log (runM (run R (<["winsize_LK" := wv]> kwargs)) s).2)).
Proof.
  intros Hk.
  pose proof (hoare_dense_lucaskanade cv2_getStructuringElement cv2_morphologyEx
                cv2_goodFeaturesToTrack cv2_calcOpticalFlowPyrLK np_exp
                (heap s) (log s) (VPair 50 50) R (<["winsize_LK" := wv]> kwargs)) as H.
  assert (Hw : kwargs_get (<["winsize_LK" := wv]> kwargs) "winsize_LK5" (VPair 50 50)
               = VPair 50 50).
  { unfold kwargs_get. rewrite lookup_insert_ne by discriminate. rewrite Hk. reflexivity. }
  specialize (H Hw s).
  assert (Hs : kept (heap s) (log s) (VPair 50 50) s).
  { split; [reflexivity|]. exists []. split; [now rewrite app_nil_r|constructor]. }
  specialize (H Hs).
  destruct (runM (run R (<["winsize_LK" := wv]> kwargs)) s) as [[a|e] s'];
    destruct H as [_ (new & Hl & HF)]; simpl; rewrite Hl;
    rewrite skipn_app, skipn_all, Nat.sub_diag; exact HF.
Qed.

(** C10. Whatever the call does, returning or raising, every buffer that
    existed before it holds the same values after it; in particular the
    buffer of [R]. *)
Theorem input_array_unchanged (R : ndarray) (kwargs : gmap string pyval) (s : state) :
  heap s `prefix_of` heap (runM (run R kwargs) s).2 /\
  forall b, heap s !! base R = Some b ->
            heap (runM (run R kwargs) s).2 !! base R = Some b.
Proof.
  pose proof (hoare_dense_lucaskanade cv2_getStructuringElement cv2_morphologyEx
                cv2_goodFeaturesToTrack cv2_calcOpticalFlowPyrLK np_exp
                (heap s) (log s) (kwargs_get kwargs "winsize_LK5" (VPair 50 50))
                R kwargs eq_refl s) as H.
  assert (Hs : kept (heap s) (log s) (kwargs_get kwargs "winsize_LK5" (VPair 50 50)) s).
  { split; [reflexivity|]. exists []. split; [now rewrite app_nil_r|constructor]. }
  specialize (H Hs).
  assert (HP : heap s `prefix_of` heap (runM (run R kwargs) s).2).
  { destruct (runM (run R kwargs) s) as [[a|e] s']; destruct H as [H _]; exact H. }
  split; [exact HP|].
  intros b Hb. destruct HP as [k' ->]. apply lookup_app_l_Some. exact Hb.
Qed.

End PipelineProperties.


(** C4 (failing input). With a single sample, [squeeze] removes the axis of
    the samples as well, and [xy.shape[1]] raises [IndexError]: no
    representative is returned for the cell of that sample. *)
Theorem declustering_single_sample (x y u v : list float)
  (decl_grid min_nr_samples : Z) :
  length x = 1%nat -> length y = 1%nat ->
  declustering x y u v decl_grid min_nr_samples = Raise IndexError.
Proof.
  intros Hx Hy. unfold declustering, hstack2.
  rewrite !length_map, Hx, Hy. simpl. unfold_bind.
  rewrite length_combine, !length_map, Hx, Hy. reflexivity.
Qed.

(** ** The theorems of the pipeline on concrete inputs *)

Lemma input_validation_witness :
  (valid_inputs (shape demo_R)
     (view_values demo_R (map F64.of_Z [1; 2; 3; 4; 5; 6; 7; 9])) ∅ = true ->
   check_inputs (shape demo_R)
     (view_values demo_R (map F64.of_Z [1; 2; 3; 4; 5; 6; 7; 9])) ∅
   = Ok (read_options ∅)) /\
  (valid_inputs (shape demo_R)
     (view_values demo_R (map F64.of_Z [1; 2; 3; 4; 5; 6; 7; 9])) ∅ = false ->
   exists e,
     runM (dense_lucaskanade demo_getStructuringElement demo_morphologyEx
             demo_goodFeaturesToTrack demo_calcOpticalFlowPyrLK exp_series
             demo_R ∅) demo_state
     = (Raise e, demo_state)).
Proof.
  apply (input_validation demo_getStructuringElement demo_morphologyEx
           demo_goodFeaturesToTrack demo_calcOpticalFlowPyrLK exp_series
           demo_R ∅ demo_state (map F64.of_Z [1; 2; 3; 4; 5; 6; 7; 9])).
  reflexivity.
Defined.

Lemma winsize_LK_ignored_witness :
  Forall (window_used (VPair 50 50))
    (skipn (length (log demo_state))
       (log (runM (dense_lucaskanade demo_getStructuringElement demo_morphologyEx
                     demo_goodFeaturesToTrack demo_calcOpticalFlowPyrLK exp_series
                     demo_R (<["winsize_LK" := VPair 10 10]> ∅)) demo_state).2)).
Proof.
  apply winsize_LK_ignored. reflexivity.
Defined.


Lemma declustering_single_sample_witness :
  declustering [F64.of_Z 3] [F64.of_Z 4] [F64.of_Z 1] [F64.of_Z 1] 20 1
  = Raise IndexError.
Proof.
  apply declustering_single_sample; reflexivity.
Defined.


(** The quartiles of these speeds are 2, 3 and 5: the thresholds are
    [max (0, 3 - 2 * 3) = 0] and [min (10, 3 + 3 * 3) = 10], and the vector
    of speed 10 is dropped by the strict comparison. *)
Example outlier_filter_five :
  outlier_filter (F64.of_Z 10) (F64.of_Z 3) five_x0 five_y0 five_u five_v
  = Ok (map F64.of_Z [0; 1; 3; 4], map F64.of_Z [0; 0; 0; 0],
        map F64.of_Z [3; 0; 0; 0], map F64.of_Z [4; 1; 2; 3]).
Proof. vm_compute. reflexivity. Qed.

(** Six samples in three cells of 20 pixels: with a minimum of two samples
    the cell of the lone sample (25, 4) is dropped. *)
Example declustering_six :
  declustering (map F64.of_Z [3; 25; 7; 41; 42; 43]) (map F64.of_Z [4; 4; 6; 50; 51; 52])
    (map F64.of_Z [1; 2; 3; 4; 5; 6]) (map F64.of_Z [1; 1; 1; 1; 1; 1]) 20 2
  = Ok (map F64.of_Z [5; 42], map F64.of_Z [5; 51],
        map F64.of_Z [2; 5], map F64.of_Z [1; 1]).
Proof. vm_compute. reflexivity. Qed.

(** A run of the whole function with [winsize_LK=(10, 10)]: the tracker is
    called with the window (50, 50), and the buffer of [R] is the first
    buffer of the final memory, unchanged. *)
Example run_with_winsize_LK :
  let s' := (runM (dense_lucaskanade demo_getStructuringElement demo_morphologyEx
                     demo_goodFeaturesToTrack demo_calcOpticalFlowPyrLK exp_series
                     demo_R (<["winsize_LK" := VPair 10 10]> ∅)) demo_state).2 in
  log s' = [EvMorphologyEx; EvMorphologyEx; EvGoodFeaturesToTrack;
            EvCalcOpticalFlowPyrLK (VPair 50 50) (VInt 2)] /\
  heap s' !! 0%nat = heap demo_state !! 0%nat.
Proof. vm_compute. split; reflexivity. Qed.

(** The same array, declared with one frame only, is rejected at once. *)
Example run_one_frame :
  runM (dense_lucaskanade demo_getStructuringElement demo_morphologyEx
          demo_goodFeaturesToTrack demo_calcOpticalFlowPyrLK exp_series
          {| base := 0; offset := 0; shape := [1; 2; 2]%nat |} ∅) demo_state
  = (Raise (ValueError "R has 1 frame, but at least two frames are expected"),
     demo_state).
Proof. vm_compute. reflexivity. Qed.

(** A first frame of equal values is rescaled to NaN, and converted to a
    frame of zeros. *)
Example run_constant_frame :
  let s' := (runM (dense_lucaskanade demo_getStructuringElement demo_morphologyEx
                     demo_goodFeaturesToTrack demo_calcOpticalFlowPyrLK exp_series
                     demo_R ∅) {| heap := [FloatBuf flat_data]; log := [] |}).2 in
  heap s' !! 3%nat = Some (FloatBuf (repeat PrimFloat.nan 4)) /\
  heap s' !! 5%nat = Some (ByteBuf [0; 0; 0; 0]).
Proof. vm_compute. split; reflexivity. Qed.

(** Without samples there is no cell and nothing is returned; a sample at
    [x = -0.0] shares the cell of the samples with [0 <= x < 20] under [==]
    but not byte for byte, and that cell is returned twice. *)
Example declustering_no_sample :
  declustering [] [] [] [] 20 2 = Ok ([], [], [], []).
Proof. vm_compute. reflexivity. Qed.

Example declustering_negative_zero :
  declustering [PrimFloat.neg_zero; F64.of_Z 5] [F64.of_Z 1; F64.of_Z 1]
    [F64.of_Z 1; F64.of_Z 2] [F64.of_Z 3; F64.of_Z 4] 20 2
  = Ok ([PrimFloat.div (F64.of_Z 5) PrimFloat.two; PrimFloat.div (F64.of_Z 5) PrimFloat.two],
        [F64.of_Z 1; F64.of_Z 1],
        [PrimFloat.div (F64.of_Z 3) PrimFloat.two; PrimFloat.div (F64.of_Z 3) PrimFloat.two],
        [PrimFloat.div (F64.of_Z 7) PrimFloat.two; PrimFloat.div (F64.of_Z 7) PrimFloat.two]).
Proof. vm_compute. reflexivity. Qed.

(** ** More on interpolate_sparse_vectors *)

Lemma mapM_length {A B} (f : A -> result B) (l : list A) (bs : list B) :
  mapM f l = Ok bs -> length bs = length l.
Proof.
  revert bs. induction l as [|a t IH]; intros bs H; simpl in H.
  - injection H as <-. reflexivity.
  - unfold_bind. destruct (f a) as [b|e]; [|discriminate].
    destruct (mapM f t) as [bs'|e]; [|discriminate].
    injection H as <-. simpl. f_equal. apply IH. reflexivity.
Qed.

Lemma mapM2_length {A B C} (f : A -> B -> result C) (l : list A) (l' : list B) cs :
  mapM2 f l l' = Ok cs -> length cs = Nat.min (length l) (length l').
Proof.
  revert l' cs. induction l as [|a t IH]; intros [|b t'] cs H; simpl in H;
    try (injection H as <-; reflexivity).
  unfold_bind. destruct (f a b) as [c|e]; [|discriminate].
  destruct (mapM2 f t t') as [cs'|e] eqn:E; [|discriminate].
  injection H as <-. simpl. f_equal. apply IH. exact E.
Qed.

Lemma setslice_same_length {A} (a : list A) i0 vals :
  (i0 + length vals <= length a)%nat -> length (setslice a i0 vals) = length a.
Proof.
  intros H. unfold setslice.
  rewrite !length_app, firstn_length_le, length_skipn by lia. lia.
Qed.


Lemma reshape2_shape {A} (rows cols : nat) (a : list A) :
  length a = (rows * cols)%nat ->
  length (reshape2 rows cols a) = rows /\
  Forall (fun row => length row = cols) (reshape2 rows cols a).
Proof.
  intros Ha. unfold reshape2. split; [rewrite length_map, length_seq; reflexivity|].
  apply List.Forall_forall. intros row Hrow. apply in_map_iff in Hrow.
  destruct Hrow as (i & <- & Hi). apply in_seq in Hi.
  rewrite firstn_length_le; [reflexivity|]. rewrite length_skipn. nia.
Qed.

Lemma meshgrid_shape rows cols :
  length (meshgrid_X rows cols) = rows /\
  Forall (fun row => length row = cols) (meshgrid_X rows cols) /\
  length (meshgrid_Y rows cols) = rows /\
  Forall (fun row => length row = cols) (meshgrid_Y rows cols).
Proof.
  unfold meshgrid_X, meshgrid_Y, arange.
  repeat split; rewrite ?length_map, ?length_seq; try reflexivity;
    apply List.Forall_forall; intros row Hrow; apply in_map_iff in Hrow;
    destruct Hrow as (i & <- & _); rewrite !length_map, length_seq; reflexivity.
Qed.

Section InterpolationShape.

Variable np_exp : float -> float.

Lemma weighted_average_length w a inds r :
  weighted_average w a inds = Ok r ->
  length r = Nat.min (length w) (length inds).
Proof.
  unfold weighted_average. unfold_bind.
  destruct (mapM (mapM (getitem a)) inds) as [picked|e] eqn:E1; [|discriminate].
  destruct (mapM2 broadcast_mul w picked) as [prod|e] eqn:E2; [|discriminate].
  intros H. injection H as <-.
  apply mapM_length in E1. apply mapM2_length in E2.
  rewrite length_zip_with. lia.
Qed.

(** A turn of the loop that returns has filled [idelta] entries of [U] and
    of [V] and moved [i0] by as much, without changing their lengths. *)
Lemma interpolate_chunk_lengths points u v function k tree st subgrid st' :
  interpolate_chunk np_exp points u v function k tree st subgrid = Ok st' ->
  (st_i0 st + length subgrid <= length (st_U st))%nat ->
  (st_i0 st + length subgrid <= length (st_V st))%nat ->
  length (st_U st') = length (st_U st) /\
  length (st_V st') = length (st_V st) /\
  st_i0 st' = (st_i0 st + length subgrid)%nat.
Proof.
  unfold interpolate_chunk. intros H HU HV.
  destruct (String.eqb (lower function) "nearest").
  - destruct tree as [tree|]; [|discriminate]. unfold_bind.
    destruct (mapM (getitem u) _) as [us|e] eqn:Eu; [|discriminate].
    destruct (mapM (getitem v) _) as [vs|e] eqn:Ev; [|discriminate].
    injection H as <-. cbn [st_U st_V st_i0].
    apply mapM_length in Eu. apply mapM_length in Ev.
    rewrite length_map in Eu, Ev.
    rewrite !setslice_same_length by lia. auto.
  - unfold_bind.
    assert (Hnb : forall nb, match k with
              | KAll => Ok (Knn2 (map (fun g => map (fun p => euclidean p (grid_point g)) points) subgrid)
                                 (map (fun _ => seq 0 (length u)) subgrid))
              | KInt k => match tree with
                          | None => Raise (UnboundLocalError "tree")
                          | Some tree => query tree (map grid_point subgrid) k
                          end
              end = Ok nb ->
              match nb with
              | Knn1 _ _ => True
              | Knn2 d inds => length d = length subgrid /\ length inds = length subgrid
              end).
    { intros nb Hn. destruct k as [k|].
      - destruct tree as [tree|]; [|discriminate]. unfold query in Hn.
        destruct (k <? 1); [discriminate|]. destruct (k =? 1).
        + injection Hn as <-. exact I.
        + injection Hn as <-. rewrite !length_map. auto.
      - injection Hn as <-. rewrite !length_map. auto. }
    destruct (match k with KAll => _ | KInt _ => _ end) as [nb|e]; [|discriminate].
    specialize (Hnb nb eq_refl).
    destruct (weight_function np_exp function _) as [wf|e]; [|discriminate].
    destruct nb as [d inds|d inds].
    + destruct (mapM (getitem u) inds); discriminate.
    + destruct Hnb as [Hd Hi].
      destruct (weighted_average (map (map wf) d) u inds) as [us|e] eqn:Eu; [|discriminate].
      destruct (weighted_average (map (map wf) d) v inds) as [vs|e] eqn:Ev; [|discriminate].
      injection H as <-. cbn [st_U st_V st_i0].
      apply weighted_average_length in Eu. apply weighted_average_length in Ev.
      rewrite length_map in Eu, Ev.
      rewrite !setslice_same_length by lia. auto.
Qed.

Lemma interpolate_loop_lengths points u v function k tree subgrids : forall st st',
  interpolate_loop np_exp points u v function k tree st subgrids = Ok st' ->
  (st_i0 st + length (concat subgrids) <= length (st_U st))%nat ->
  (st_i0 st + length (concat subgrids) <= length (st_V st))%nat ->
  length (st_U st') = length (st_U st) /\ length (st_V st') = length (st_V st).
Proof.
  induction subgrids as [|sub rest IH]; intros st st' H HU HV; simpl in H.
  - injection H as <-. auto.
  - unfold_bind. simpl in HU, HV. rewrite length_app in HU, HV.
    destruct (interpolate_chunk np_exp points u v function k tree st sub) as [st1|e] eqn:E;
      [|discriminate].
    destruct (interpolate_chunk_lengths _ _ _ _ _ _ _ _ _ E ltac:(lia) ltac:(lia))
      as (H1 & H2 & H3).
    destruct (IH st1 st' H) as [H4 H5]; [lia|lia|]. split; congruence.
Qed.

End InterpolationShape.

(** What a call that returns has computed: the grids, and two layers
    reshaped from [rows * cols] values each. *)
Lemma interpolate_sparse_vectors_returns (np_exp : float -> float)
  (x y u v : list float) (rows cols : nat) (function : string)
  (k : neighbour_count) (epsilon : option float) (nchunks : Z) (r : dense_field) :
  interpolate_sparse_vectors np_exp x y u v [rows; cols] function k epsilon nchunks
  = Ok r ->
  exists st,
    r = {| X := meshgrid_X rows cols; Y := meshgrid_Y rows cols;
           U := reshape2 rows cols (st_U st); V := reshape2 rows cols (st_V st) |} /\
    length (st_U st) = (rows * cols)%nat /\ length (st_V st) = (rows * cols)%nat.
Proof.
  unfold interpolate_sparse_vectors. unfold_bind. intros H.
  destruct (column_stack x y) as [points|e]; [|discriminate].
  cbv beta iota zeta in H.
  destruct (Z_le_gt_dec nchunks 0) as [Hn|Hn].
  { rewrite array_split_nonpositive in H by exact Hn. destruct k; discriminate. }
  destruct (array_split_concat (grid_points rows cols) nchunks ltac:(lia))
    as (pieces & E & Hcat).
  rewrite E in H.
  assert (HL : forall k' tree st',
            interpolate_loop np_exp points u v function k' tree
              {| st_U := repeat PrimFloat.zero (length (grid_points rows cols));
                 st_V := repeat PrimFloat.zero (length (grid_points rows cols));
                 st_i0 := 0%nat; st_epsilon := epsilon |}
              (List.filter nonempty pieces) = Ok st' ->
            length (st_U st') = (rows * cols)%nat /\ length (st_V st') = (rows * cols)%nat).
  { intros k' tree st' Hl.
    apply interpolate_loop_lengths in Hl;
      cbn [st_U st_V st_i0];
      rewrite ?concat_filter_nonempty, ?Hcat, ?repeat_length; try lia.
    cbn [st_U st_V] in Hl. rewrite !repeat_length, grid_points_length in Hl. exact Hl. }
  destruct k as [k|];
    match type of H with
    | context [interpolate_loop _ _ _ _ _ ?k' ?tree ?st _] =>
        destruct (interpolate_loop np_exp points u v function k' tree st
                    (List.filter nonempty pieces)) as [st'|e] eqn:El; [|discriminate];
        destruct (HL k' tree st' El) as [HU HV]
    end;
    injection H as <-; exists st'; repeat split; assumption.
Qed.

(** X7. Whenever [interpolate_sparse_vectors] returns, whatever the samples,
    the kernel, [k], the bandwidth and the chunk count, the four grids [X],
    [Y], [U] and [V] have [rows] rows of [cols] entries each. *)
Theorem dense_field_shape (np_exp : float -> float) (x y u v : list float)
  (rows cols : nat) (function : string) (k : neighbour_count)
  (epsilon : option float) (nchunks : Z) (r : dense_field) :
  interpolate_sparse_vectors np_exp x y u v [rows; cols] function k epsilon nchunks
  = Ok r ->
  (length (X r) = rows /\ Forall (fun row => length row = cols) (X r)) /\
  (length (Y r) = rows /\ Forall (fun row => length row = cols) (Y r)) /\
  (length (U r) = rows /\ Forall (fun row => length row = cols) (U r)) /\
  (length (V r) = rows /\ Forall (fun row => length row = cols) (V r)).
Proof.
  intros H.
  destruct (interpolate_sparse_vectors_returns _ _ _ _ _ _ _ _ _ _ _ _ H)
    as (st & -> & HU & HV).
  destruct (meshgrid_shape rows cols) as (X1 & X2 & Y1 & Y2).
  cbn [X Y U V].
  repeat split; try assumption; apply reshape2_shape; assumption.
Qed.


(** ** The kernel ["nearest"] *)

Section NearestKernel.

Variable np_exp : float -> float.

(** With the kernel ["nearest"] a turn of the loop reads neither [k] nor the
    bandwidth: from states that agree on [U], [V] and [i0] it raises the
    same exception, or returns states that agree again. *)
Lemma interpolate_chunk_nearest_agree points u v function k k' tree st1 st2 sub :
  lower function = "nearest" ->
  st_U st1 = st_U st2 -> st_V st1 = st_V st2 -> st_i0 st1 = st_i0 st2 ->
  match interpolate_chunk np_exp points u v function k tree st1 sub,
        interpolate_chunk np_exp points u v function k' tree st2 sub with
  | Ok a, Ok b => st_U a = st_U b /\ st_V a = st_V b /\ st_i0 a = st_i0 b
  | Raise e1, Raise e2 => e1 = e2
  | _, _ => False
  end.
Proof.
  intros Hf HU HV Hi. unfold interpolate_chunk. rewrite Hf. simpl String.eqb. cbv iota.
  destruct tree as [tree|]; [|reflexivity]. unfold_bind.
  destruct (mapM (getitem u) _) as [us|e]; [|reflexivity].
  destruct (mapM (getitem v) _) as [vs|e]; [|reflexivity].
  cbn [st_U st_V st_i0]. rewrite HU, HV, Hi. auto.
Qed.

Lemma interpolate_loop_nearest_agree points u v function k k' tree subs :
  lower function = "nearest" ->
  forall st1 st2,
  st_U st1 = st_U st2 -> st_V st1 = st_V st2 -> st_i0 st1 = st_i0 st2 ->
  match interpolate_loop np_exp points u v function k tree st1 subs,
        interpolate_loop np_exp points u v function k' tree st2 subs with
  | Ok a, Ok b => st_U a = st_U b /\ st_V a = st_V b
  | Raise e1, Raise e2 => e1 = e2
  | _, _ => False
  end.
Proof.
  intros Hf. induction subs as [|sub rest IH]; intros st1 st2 HU HV Hi; simpl.
  - auto.
  - unfold_bind.
    pose proof (interpolate_chunk_nearest_agree points u v function k k' tree
                  st1 st2 sub Hf HU HV Hi) as Hc.
    destruct (interpolate_chunk np_exp points u v function k tree st1 sub) as [a|e1],
             (interpolate_chunk np_exp points u v function k' tree st2 sub) as [b|e2];
      try contradiction; [|exact Hc].
    destruct Hc as (H1 & H2 & H3). apply IH; assumption.
Qed.

End NearestKernel.

(** X2. With the kernel ["nearest"] and an integer [k], neither [k] nor
    [epsilon] has any effect: two calls that differ only in them return the
    same fields or raise the same exception.  No condition on the samples,
    on the domain or on the chunk count is needed; [k] may even be zero or
    negative. *)
Theorem nearest_ignores_k_and_epsilon (np_exp : float -> float)
  (x y u v : list float) (domain_size : list nat) (function : string)
  (k k' : Z) (epsilon epsilon' : option float) (nchunks : Z) :
  lower function = "nearest" ->
  interpolate_sparse_vectors np_exp x y u v domain_size function (KInt k)
    epsilon nchunks
  = interpolate_sparse_vectors np_exp x y u v domain_size function (KInt k')
      epsilon' nchunks.
Proof.
  intros Hf. unfold interpolate_sparse_vectors. unfold_bind.
  destruct (column_stack x y) as [points|e]; [|reflexivity].
  destruct domain_size as [|rows [|cols rest]]; [reflexivity|reflexivity|].
  cbv beta iota zeta.
  destruct (array_split (grid_points rows cols) nchunks) as [pieces|e]; [|reflexivity].
  match goal with
  | |- context [interpolate_loop _ _ _ _ _ ?k1 ?tree ?s1 ?subs] =>
      match goal with
      | |- _ = match interpolate_loop _ _ _ _ _ ?k2 _ ?s2 _ with _ => _ end =>
          pose proof (interpolate_loop_nearest_agree np_exp points u v function
                        k1 k2 tree subs Hf s1 s2 eq_refl eq_refl eq_refl) as HL
      end
  end.
  cbv beta in HL.
  destruct (interpolate_loop np_exp points u v function
              (KInt (Z.min k (Z.of_nat (length points)))) _ _ _) as [a|e1],
           (interpolate_loop np_exp points u v function
              (KInt (Z.min k' (Z.of_nat (length points)))) _ _ _) as [b|e2];
    try contradiction.
  - destruct HL as [-> ->]. reflexivity.
  - rewrite HL. reflexivity.
Qed.

Lemma nearest_ignores_k_and_epsilon_witness :
  interpolate_sparse_vectors exp_series two_x two_y two_u two_v [2%nat; 4%nat]
    "Nearest" (KInt 20) None 3
  = interpolate_sparse_vectors exp_series two_x two_y two_u two_v [2%nat; 4%nat]
      "Nearest" (KInt (-1)) (Some PrimFloat.one) 3.
Proof.
  apply nearest_ignores_k_and_epsilon. reflexivity.
Defined.



(** ** The other kernels, and the grid *)




Lemma dense_field_shape_witness :
  let r := {| X := [[0; 1; 2; 3]]; Y := [[0; 0; 0; 0]];
              U := [[F64.of_Z 1; F64.of_Z 1; F64.of_Z 2; F64.of_Z 2]];
              V := [[F64.of_Z 5; F64.of_Z 5; F64.of_Z 6; F64.of_Z 6]] |} in
  (length (X r) = 1%nat /\ Forall (fun row => length row = 4%nat) (X r)) /\
  (length (Y r) = 1%nat /\ Forall (fun row => length row = 4%nat) (Y r)) /\
  (length (U r) = 1%nat /\ Forall (fun row => length row = 4%nat) (U r)) /\
  (length (V r) = 1%nat /\ Forall (fun row => length row = 4%nat) (V r)).
Proof.
  apply (dense_field_shape exp_series two_x two_y two_u two_v 1 4 "nearest"
           (KInt 20) None 3).
  vm_compute. reflexivity.
Defined.


Section DomainSize.

Variable np_exp : float -> float.


End DomainSize.



(** ** More on declustering *)









(** ** More on the outlier filter *)










(** ** The wrappers of OpenCV and the keyword arguments *)

Lemma kwargs_get_insert_ne kwargs key key' v dflt :
  key <> key' ->
  kwargs_get (<[key := v]> kwargs) key' dflt = kwargs_get kwargs key' dflt.
Proof.
  intros H. unfold kwargs_get. rewrite lookup_insert_ne by exact H. reflexivity.
Qed.

Lemma read_options_insert kwargs key v :
  ~ In key option_names ->
  read_options (<[key := v]> kwargs) = read_options kwargs.
Proof.
  intros H. unfold read_options.
  rewrite !kwargs_get_insert_ne; [reflexivity|..];
    intros ->; apply H; unfold option_names; simpl; tauto.
Qed.

Lemma check_inputs_insert sh data kwargs key v :
  ~ In key option_names ->
  check_inputs sh data (<[key := v]> kwargs) = check_inputs sh data kwargs.
Proof.
  intros H. unfold check_inputs. rewrite (read_options_insert kwargs key v H).
  reflexivity.
Qed.



Lemma runM_bind {A B} (m : M A) (f : A -> M B) (s : state) :
  runM (m ≫= f) s
  = match runM m s with
    | (Ok a, s') => runM (f a) s'
    | (Raise e, s') => (Raise e, s')
    end.
Proof. reflexivity. Qed.

Section Wrappers.

Variable cv2_getStructuringElement : pyval -> result (list (list Z)).
Variable cv2_morphologyEx : image -> list (list Z) -> result (list Z).
Variable cv2_goodFeaturesToTrack :
  image -> pyval -> pyval -> pyval -> pyval -> result (option (list point)).
Variable cv2_calcOpticalFlowPyrLK :
  image -> image -> list point -> pyval -> pyval ->
  result (list point * list Z * list float).
Variable np_exp : float -> float.

(** X12. [clean_image] works in place: when it returns, it returns the
    array it was given, after one call of [cv2.morphologyEx]; and whether it
    returns or raises, every buffer other than that of its argument is as
    it was. *)
Theorem clean_image_in_place (R : ndarray) (n : pyval) (s : state) :
  let out := runM (clean_image cv2_getStructuringElement cv2_morphologyEx R n) s in
  (forall R', out.1 = Ok R' -> R' = R /\ log out.2 = log s ++ [EvMorphologyEx]) /\
  (forall i, i <> base R -> heap out.2 !! i = heap s !! i).
Proof.
  unfold clean_image. simpl.
  assert (Hsame : forall (e : exn) (l : list event),
            (forall R', (Raise e : result ndarray) = Ok R' ->
                        R' = R /\ l = log s ++ [EvMorphologyEx]) /\
            (forall i, i <> base R -> heap s !! i = heap s !! i)).
  { intros e l. split; [intros R' H; discriminate|reflexivity]. }
  destruct (heap s !! base R) as [b|] eqn:Eb; [|apply Hsame].
  assert (Hload : forall (k : buffer -> state -> result ndarray * state)
                         (P : result ndarray * state -> Prop),
             (forall b', P (k b' s)) ->
             P (match match b with
                      | FloatBuf d => (Ok (FloatBuf (firstn (size (shape R)) (skipn (offset R) d))), s)
                      | ByteBuf d => (Ok (ByteBuf (firstn (size (shape R)) (skipn (offset R) d))), s)
                      end with
                | (Ok a, s') => k a s'
                | (Raise e, s') => (Raise e, s')
                end)).
  { intros k0 P HP. destruct b; apply HP. }
  apply Hload. intros b'. clear Hload.
  destruct (cv2_getStructuringElement n) as [kernel|e]; simpl; [|apply Hsame].
  destruct (cv2_morphologyEx _ kernel) as [out|e]; simpl; [|apply Hsame].
  destruct (opening_mask (binarize b') out) as [mask|e]; simpl; [|apply Hsame].
  destruct (fill_with_nanmin b' mask) as [b''|e]; simpl; [|apply Hsame].
  rewrite Eb.
  destruct b as [d|d], b'' as [d'|d']; simpl; try apply Hsame;
    (split; [intros R' H; injection H as <-; split; reflexivity|]);
    intros i Hi; rewrite list_lookup_insert_ne by congruence; reflexivity.
Qed.

(** X13. [ShiTomasi_features_to_track] returns corners exactly when its
    argument is a two-dimensional 8-bit image on which
    [cv2.goodFeaturesToTrack] reports corners; an argument that is not
    two-dimensional or not 8-bit raises [ValueError] before OpenCV is
    called. *)
Theorem ShiTomasi_returns_corners (R : ndarray) (a b c d : pyval)
  (s s' : state) (p0 : list point) :
  (runM (ShiTomasi_features_to_track cv2_goodFeaturesToTrack R a b c d) s = (Ok p0, s')
   <-> length (shape R) = 2%nat /\
       exists px, heap s !! base R = Some (ByteBuf px) /\
         cv2_goodFeaturesToTrack (view_bytes R px) a b c d = Ok (Some p0) /\
         s' = {| heap := heap s; log := log s ++ [EvGoodFeaturesToTrack] |}) /\
  (length (shape R) <> 2%nat \/ (exists px, heap s !! base R = Some (FloatBuf px)) ->
   exists msg,
     runM (ShiTomasi_features_to_track cv2_goodFeaturesToTrack R a b c d) s
     = (Raise (ValueError msg), s)).
Proof.
  unfold ShiTomasi_features_to_track, view_bytes.
  destruct (length (shape R) =? 2)%nat eqn:E2; cbn [negb].
  - apply Nat.eqb_eq in E2. simpl.
    destruct (heap s !! base R) as [[px|px]|] eqn:Eb; simpl.
    + split.
      * split; [discriminate|]. intros (_ & px' & H & _). discriminate.
      * intros _. eexists. reflexivity.
    + split.
      * destruct (cv2_goodFeaturesToTrack _ a b c d) as [[q|]|e] eqn:Ecv; simpl; split;
          try discriminate;
          try (intros (_ & px' & H & Hcv & _); injection H as <-;
               rewrite Hcv in Ecv; discriminate).
        -- intros H. injection H as <- <-. split; [exact E2|].
           exists px. repeat split. exact Ecv.
        -- intros (_ & px' & H & Hcv & ->). injection H as <-.
           rewrite Hcv in Ecv. injection Ecv as <-. reflexivity.
      * intros [H|[px' H]]; [congruence|discriminate].
    + split.
      * split; [discriminate|]. intros (_ & px' & H & _). discriminate.
      * intros [H|[px' H]]; [congruence|discriminate].
  - apply Nat.eqb_neq in E2. simpl. split.
    + split; [discriminate|]. intros [H _]. congruence.
    + intros _. eexists. reflexivity.
Qed.


(** X15. A keyword argument whose name is not one of the seventeen keys
    that [dense_lucaskanade] looks up is accepted and has no effect: the
    call returns or raises, and leaves the memory and makes the OpenCV
    calls, as without it. *)
Theorem unread_keyword_ignored (R : ndarray) (kwargs : gmap string pyval)
  (key : string) (v : pyval) (s : state) :
  ~ In key option_names ->
  runM (dense_lucaskanade cv2_getStructuringElement cv2_morphologyEx
          cv2_goodFeaturesToTrack cv2_calcOpticalFlowPyrLK np_exp
          R (<[key := v]> kwargs)) s
  = runM (dense_lucaskanade cv2_getStructuringElement cv2_morphologyEx
            cv2_goodFeaturesToTrack cv2_calcOpticalFlowPyrLK np_exp R kwargs) s.
Proof.
  intros Hk. unfold dense_lucaskanade.
  rewrite !(runM_bind (load_floats R)).
  destruct (runM (load_floats R) s) as [[data|e] s1]; [|reflexivity].
  rewrite (check_inputs_insert (shape R) data kwargs key v Hk).
  reflexivity.
Qed.

End Wrappers.


Lemma unread_keyword_ignored_witness :
  runM (dense_lucaskanade demo_getStructuringElement demo_morphologyEx
          demo_goodFeaturesToTrack demo_calcOpticalFlowPyrLK exp_series
          demo_R (<["nchunk" := VInt 0]> ∅)) demo_state
  = runM (dense_lucaskanade demo_getStructuringElement demo_morphologyEx
            demo_goodFeaturesToTrack demo_calcOpticalFlowPyrLK exp_series
            demo_R ∅) demo_state.
Proof.
  apply unread_keyword_ignored.
  unfold option_names. simpl. intros H.
  repeat (destruct H as [H|H]; [discriminate|]). exact H.
Defined.

Section WholeRun.

Variable cv2_getStructuringElement : pyval -> result (list (list Z)).
Variable cv2_morphologyEx : image -> list (list Z) -> result (list Z).
Variable cv2_goodFeaturesToTrack :
  image -> pyval -> pyval -> pyval -> pyval -> result (option (list point)).
Variable cv2_calcOpticalFlowPyrLK :
  image -> image -> list point -> pyval -> pyval ->
  result (list point * list Z * list float).
Variable np_exp : float -> float.

Lemma runM_lift_bind {A B} (r : result A) (f : A -> M B) (s : state) :
  runM (lift r ≫= f) s
  = match r with
    | Ok a => runM (f a) s
    | Raise e => (Raise e, s)
    end.
Proof. destruct r; reflexivity. Qed.

(** X21. When [dense_lucaskanade] returns, [R] is three-dimensional and
    each of the two layers of the motion field has the shape of a frame of
    [R]: [R.shape[1]] rows of [R.shape[2]] entries. *)
Theorem motion_field_shape (R : ndarray) (kwargs : gmap string pyval)
  (s s' : state) (fu fv : list (list float)) :
  runM (dense_lucaskanade cv2_getStructuringElement cv2_morphologyEx
          cv2_goodFeaturesToTrack cv2_calcOpticalFlowPyrLK np_exp R kwargs) s
  = (Ok (fu, fv), s') ->
  length (shape R) = 3%nat /\
  (length fu = nth 1 (shape R) 0%nat /\
   Forall (fun row => length row = nth 2 (shape R) 0%nat) fu) /\
  (length fv = nth 1 (shape R) 0%nat /\
   Forall (fun row => length row = nth 2 (shape R) 0%nat) fv).
Proof.
  unfold dense_lucaskanade. rewrite runM_bind.
  destruct (runM (load_floats R) s) as [[data|e] s1]; [|discriminate]. cbv beta iota.
  rewrite runM_lift_bind.
  destruct (check_inputs (shape R) data kwargs) as [opts|e] eqn:Ec; [|discriminate].
  assert (H3 : length (shape R) = 3%nat).
  { unfold check_inputs, check_R in Ec.
    destruct (length (shape R) =? 3)%nat eqn:E; [apply Nat.eqb_eq; exact E|discriminate]. }
  cbv beta iota.
  rewrite runM_bind.
  match goal with
  | |- context [@runM ?A ?m s1] =>
      destruct (@runM A m s1) as [[[[[y0S x0S] uS] vS]|e] s2];
        cbv beta iota; [|discriminate]
  end. cbv beta iota.
  rewrite runM_lift_bind. destruct (as_int (decl_grid opts)) as [grid|e]; [|discriminate]. cbv beta iota.
  rewrite runM_lift_bind. destruct (as_int (min_nr_samples opts)) as [mn|e]; [|discriminate]. cbv beta iota.
  rewrite runM_lift_bind. destruct (declustering _ _ _ _ grid mn) as [sp|e]; [|discriminate].
  destruct (append_extra_vectors sp (extra_vectors opts)) as [[[x y] u] v].
  cbv beta iota.
  rewrite runM_lift_bind. destruct (as_str (function opts)) as [fn|e]; [|discriminate]. cbv beta iota.
  rewrite runM_lift_bind. destruct (as_neighbour_count (k opts)) as [kk|e]; [|discriminate]. cbv beta iota.
  rewrite runM_lift_bind. destruct (as_epsilon (epsilon opts)) as [eps|e]; [|discriminate]. cbv beta iota.
  rewrite runM_lift_bind. destruct (as_int (nchunks opts)) as [nch|e]; [|discriminate]. cbv beta iota.
  rewrite runM_lift_bind.
  destruct (interpolate_sparse_vectors np_exp x y u v _ fn kk eps nch) as [r|e] eqn:Ei;
    [|discriminate].
  intros H. injection H as <- <- _.
  destruct (interpolate_sparse_vectors_returns _ _ _ _ _ _ _ _ _ _ _ _ Ei)
    as (st & -> & HU & HV).
  cbn [U V].
  split; [exact H3|]. split; apply reshape2_shape; assumption.
Qed.

End WholeRun.

Lemma motion_field_shape_witness :
  let fu := [[PrimFloat.one; PrimFloat.one]; [PrimFloat.one; PrimFloat.one]] in
  length (shape demo_R) = 3%nat /\
  (length fu = nth 1 (shape demo_R) 0%nat /\
   Forall (fun row => length row = nth 2 (shape demo_R) 0%nat) fu) /\
  (length fu = nth 1 (shape demo_R) 0%nat /\
   Forall (fun row => length row = nth 2 (shape demo_R) 0%nat) fu).
Proof.
  intros fu.
  apply (motion_field_shape demo_getStructuringElement demo_morphologyEx
           demo_goodFeaturesToTrack demo_calcOpticalFlowPyrLK exp_series demo_R
           (<["min_nr_samples" := VInt 1]> (<["function" := VStr "nearest"]> ∅))
           demo_state
           (runM (dense_lucaskanade demo_getStructuringElement demo_morphologyEx
                    demo_goodFeaturesToTrack demo_calcOpticalFlowPyrLK exp_series demo_R
                    (<["min_nr_samples" := VInt 1]> (<["function" := VStr "nearest"]> ∅)))
              demo_state).2
           fu fu).
  vm_compute. reflexivity.
Defined.

(** ** A run without features *)

Lemma hoare_top {A} (m : M A) :
  hoare (fun _ => True) m (fun _ _ => True) (fun _ => True).
Proof. intros s _. destruct (runM m s) as [[a|e] s']; exact I. Qed.

Lemma hoare_absurd {A} (m : M A) (Q : A -> state -> Prop) (E : state -> Prop) :
  hoare (fun _ => False) m Q E.
Proof. intros s []. Qed.

Section NoFeature.

Variable cv2_getStructuringElement : pyval -> result (list (list Z)).
Variable cv2_morphologyEx : image -> list (list Z) -> result (list Z).
Variable cv2_goodFeaturesToTrack :
  image -> pyval -> pyval -> pyval -> pyval -> result (option (list point)).
Variable cv2_calcOpticalFlowPyrLK :
  image -> image -> list point -> pyval -> pyval ->
  result (list point * list Z * list float).
Variable np_exp : float -> float.

Hypothesis no_feature :
  forall img a b c d, cv2_goodFeaturesToTrack img a b c d = Ok None.

Lemma ShiTomasi_no_feature R a b c d :
  hoare (fun _ => True)
    (ShiTomasi_features_to_track cv2_goodFeaturesToTrack R a b c d)
    (fun _ _ => False) (fun _ => True).
Proof.
  intros s _. unfold ShiTomasi_features_to_track.
  destruct (negb (length (shape R) =? 2)%nat); [exact I|].
  simpl. destruct (heap s !! base R) as [[px|px]|]; simpl; try exact I.
  rewrite no_feature. exact I.
Qed.

Ltac skip_step := eapply hoare_bind; [apply hoare_top|]; intros ?.

Lemma frame_pair_no_feature R opts acc n :
  hoare (fun _ => True)
    (frame_pair cv2_getStructuringElement cv2_morphologyEx cv2_goodFeaturesToTrack
       cv2_calcOpticalFlowPyrLK R opts acc n)
    (fun _ _ => False) (fun _ => True).
Proof.
  unfold frame_pair. destruct acc as [[[y0S x0S] uS] vS].
  do 8 skip_step.
  eapply hoare_bind; [apply ShiTomasi_no_feature|].
  intros p0. apply hoare_absurd.
Qed.

Lemma frame_loop_no_feature R opts acc n rest :
  hoare (fun _ => True)
    (frame_loop cv2_getStructuringElement cv2_morphologyEx cv2_goodFeaturesToTrack
       cv2_calcOpticalFlowPyrLK R opts acc (n :: rest))
    (fun _ _ => False) (fun _ => True).
Proof.
  simpl. eapply hoare_bind; [apply frame_pair_no_feature|].
  intros acc'. apply hoare_absurd.
Qed.

End NoFeature.

(** X22. When [cv2.goodFeaturesToTrack] finds no corner in any image,
    [dense_lucaskanade] does not return a motion field, whatever the input
    and the options: every call ends in an exception. *)
Theorem no_feature_no_motion_field
  (cv2_getStructuringElement : pyval -> result (list (list Z)))
  (cv2_morphologyEx : image -> list (list Z) -> result (list Z))
  (cv2_goodFeaturesToTrack :
     image -> pyval -> pyval -> pyval -> pyval -> result (option (list point)))
  (cv2_calcOpticalFlowPyrLK :
     image -> image -> list point -> pyval -> pyval ->
     result (list point * list Z * list float))
  (np_exp : float -> float) (R : ndarray) (kwargs : gmap string pyval) (s : state) :
  (forall img a b c d, cv2_goodFeaturesToTrack img a b c d = Ok None) ->
  exists e,
    (runM (dense_lucaskanade cv2_getStructuringElement cv2_morphologyEx
             cv2_goodFeaturesToTrack cv2_calcOpticalFlowPyrLK np_exp R kwargs) s).1
    = Raise e.
Proof.
  intros Hno. unfold dense_lucaskanade. rewrite runM_bind.
  destruct (runM (load_floats R) s) as [[data|e] s1]; [|eexists; reflexivity].
  rewrite runM_lift_bind.
  destruct (check_inputs (shape R) data kwargs) as [opts|e] eqn:Ec;
    [|eexists; reflexivity].
  assert (H2 : (2 <= nth 0 (shape R) 0)%nat).
  { unfold check_inputs, check_R in Ec.
    destruct (negb (length (shape R) =? 3)%nat); [discriminate|].
    destruct (nth 0 (shape R) 0 <? 2)%nat eqn:E; [discriminate|].
    apply Nat.ltb_ge in E. exact E. }
  cbv beta iota. rewrite runM_bind.
  destruct (nth 0 (shape R) 0%nat - 1)%nat as [|k'] eqn:Ek; [lia|].
  change (seq 0 (S k')) with (0%nat :: seq 1 k').
  pose proof (frame_loop_no_feature cv2_getStructuringElement cv2_morphologyEx
                cv2_goodFeaturesToTrack cv2_calcOpticalFlowPyrLK Hno R opts
                ([], [], [], []) 0%nat (seq 1 k') s1 I) as HL.
  match goal with
  | |- context [@runM ?A ?m s1] =>
      change (@runM A m s1) with
        (runM (frame_loop cv2_getStructuringElement cv2_morphologyEx
                 cv2_goodFeaturesToTrack cv2_calcOpticalFlowPyrLK R opts
                 ([], [], [], []) (0%nat :: seq 1 k')) s1)
  end.
  destruct (runM (frame_loop cv2_getStructuringElement cv2_morphologyEx
                    cv2_goodFeaturesToTrack cv2_calcOpticalFlowPyrLK R opts
                    ([], [], [], []) (0%nat :: seq 1 k')) s1) as [[a|e] s2];
    [destruct HL|eexists; reflexivity].
Qed.

Lemma no_feature_no_motion_field_witness :
  exists e,
    (runM (dense_lucaskanade demo_getStructuringElement demo_morphologyEx
             (fun _ _ _ _ _ => Ok None) demo_calcOpticalFlowPyrLK exp_series
             demo_R ∅) demo_state).1
    = Raise e.
Proof.
  apply no_feature_no_motion_field. reflexivity.
Defined.

(** The exception of that run is the one of [ShiTomasi_features_to_track]. *)
Example run_without_feature :
  (runM (dense_lucaskanade demo_getStructuringElement demo_morphologyEx
           (fun _ _ _ _ _ => Ok None) demo_calcOpticalFlowPyrLK exp_series
           demo_R ∅) demo_state).1
  = Raise (ValueError "Shi-Tomasi found no good feature to be tracked.").
Proof. vm_compute. reflexivity. Qed.

(** ** The OpenCV calls of a run *)

Section CallSequence.

Variable cv2_getStructuringElement : pyval -> result (list (list Z)).
Variable cv2_morphologyEx : image -> list (list Z) -> result (list Z).
Variable cv2_goodFeaturesToTrack :
  image -> pyval -> pyval -> pyval -> pyval -> result (option (list point)).
Variable cv2_calcOpticalFlowPyrLK :
  image -> image -> list point -> pyval -> pyval ->
  result (list point * list Z * list float).
Variable np_exp : float -> float.

Local Abbreviation logged l := (fun s : state => log s = l).
Local Abbreviation anywhere := (fun _ : state => True).

Ltac quiet lem := eapply hoare_bind; [apply lem|]; intros ?.

Lemma log_load a l : hoare (logged l) (load a) (fun _ => logged l) anywhere.
Proof.
  intros s Hs. simpl. destruct (heap s !! base a) as [[d|d]|]; auto.
Qed.

Lemma log_ret {A} (a : A) l : hoare (logged l) (mret a) (fun _ => logged l) anywhere.
Proof. intros s Hs. exact Hs. Qed.

Lemma log_lift {A} (r : result A) l :
  hoare (logged l) (lift r) (fun _ => logged l) anywhere.
Proof. intros s Hs. simpl. destruct r; auto. Qed.

Ltac destruct_tuple :=
  match goal with
  | |- hoare _ (match ?a with _ => _ end) _ _ => destruct a as [[[? ?] ?] ?]
  end.
Ltac quiet_lift := eapply hoare_bind; [apply log_lift|]; intros ?.

Lemma log_load_floats a l :
  hoare (logged l) (load_floats a) (fun _ => logged l) anywhere.
Proof.
  unfold load_floats. quiet log_load.
  match goal with b : buffer |- _ => destruct b end; apply log_ret.
Qed.

Lemma log_load_image a l :
  hoare (logged l) (load_image a) (fun _ => logged l) anywhere.
Proof.
  unfold load_image. quiet log_load.
  match goal with b : buffer |- _ => destruct b end; [apply log_lift|apply log_ret].
Qed.

Lemma log_alloc sh b l : hoare (logged l) (alloc sh b) (fun _ => logged l) anywhere.
Proof. intros s Hs. exact Hs. Qed.

Lemma log_store a v l : hoare (logged l) (store a v) (fun _ => logged l) anywhere.
Proof.
  intros s Hs. simpl. destruct (heap s !! base a) as [[d|d]|], v; simpl; auto.
Qed.

Lemma log_emit ev l :
  hoare (logged l) (emit ev) (fun _ => logged (l ++ [ev])) anywhere.
Proof. intros s Hs. simpl. rewrite Hs. reflexivity. Qed.

Lemma log_copy a l : hoare (logged l) (copy a) (fun _ => logged l) anywhere.
Proof. unfold copy. quiet log_load. apply log_alloc. Qed.

Lemma log_rescale a l : hoare (logged l) (rescale a) (fun _ => logged l) anywhere.
Proof. unfold rescale. quiet log_load_floats. quiet_lift. apply log_alloc. Qed.

Lemma log_astype_uint8 a l :
  hoare (logged l) (astype_uint8 a) (fun _ => logged l) anywhere.
Proof. unfold astype_uint8. quiet log_load_floats. apply log_alloc. Qed.

Lemma log_clean_image R n l :
  hoare (logged l) (clean_image cv2_getStructuringElement cv2_morphologyEx R n)
    (fun _ => logged (l ++ [EvMorphologyEx])) anywhere.
Proof.
  unfold clean_image. quiet log_load. quiet_lift. quiet log_emit.
  quiet_lift. quiet_lift. quiet_lift. quiet log_store.
  apply log_ret.
Qed.

Lemma log_ShiTomasi R a b c d l :
  hoare (logged l) (ShiTomasi_features_to_track cv2_goodFeaturesToTrack R a b c d)
    (fun _ => logged (l ++ [EvGoodFeaturesToTrack])) anywhere.
Proof.
  unfold ShiTomasi_features_to_track.
  destruct (negb (length (shape R) =? 2)%nat).
  { intros s Hs. exact I. }
  quiet log_load_image. quiet log_emit. quiet_lift.
  match goal with p : option (list point) |- _ => destruct p end;
    [apply log_ret|intros s Hs; exact I].
Qed.

Lemma log_LucasKanade prvs next p0 w nr l :
  hoare (logged l)
    (LucasKanade_features_tracking cv2_calcOpticalFlowPyrLK prvs next p0 w nr)
    (fun _ => logged (l ++ [EvCalcOpticalFlowPyrLK w nr])) anywhere.
Proof.
  unfold LucasKanade_features_tracking.
  quiet log_load_image. quiet log_load_image. quiet log_emit. quiet_lift.
  match goal with a : _ * _ * _ |- _ => destruct a as [[p1 st] err] end.
  quiet_lift. quiet_lift. quiet_lift. apply log_ret.
Qed.

Lemma log_frame_pair R opts acc n l :
  hoare (logged l)
    (frame_pair cv2_getStructuringElement cv2_morphologyEx cv2_goodFeaturesToTrack
       cv2_calcOpticalFlowPyrLK R opts acc n)
    (fun _ => logged (l ++ frame_pair_calls opts)) anywhere.
Proof.
  unfold frame_pair, frame_pair_calls. destruct acc as [[[y0S x0S] uS] vS].
  quiet log_copy. quiet log_copy. quiet log_rescale. quiet log_rescale.
  quiet log_astype_uint8. quiet log_astype_uint8.
  quiet log_clean_image. quiet log_clean_image.
  quiet log_ShiTomasi. quiet log_LucasKanade.
  destruct_tuple.
  quiet_lift. quiet_lift. quiet_lift.
  destruct_tuple.
  eapply hoare_weaken; [apply log_ret|intros ? Hs; exact Hs|].
  intros ? s Hs. simpl in Hs. rewrite Hs, <- !app_assoc. reflexivity.
Qed.

Lemma log_frame_loop R opts ns : forall acc l,
  hoare (logged l)
    (frame_loop cv2_getStructuringElement cv2_morphologyEx cv2_goodFeaturesToTrack
       cv2_calcOpticalFlowPyrLK R opts acc ns)
    (fun _ => logged (l ++ concat (map (fun _ => frame_pair_calls opts) ns))) anywhere.
Proof.
  induction ns as [|n rest IH]; intros acc l; simpl.
  - intros s Hs. simpl. rewrite app_nil_r. exact Hs.
  - quiet log_frame_pair.
    eapply hoare_weaken; [apply IH|intros ? Hs; exact Hs|].
    intros ? s Hs. simpl in Hs. rewrite Hs, <- app_assoc. reflexivity.
Qed.

(** X4. A call of [dense_lucaskanade] that returns has made, for each of
    the [R.shape[0] - 1] pairs of consecutive frames in turn, two calls of
    [cv2.morphologyEx], one of [cv2.goodFeaturesToTrack] and one of
    [cv2.calcOpticalFlowPyrLK] with the window and the number of levels
    read from the keyword arguments, in this order, and no other call of
    these three functions. *)
Theorem opencv_call_sequence (R : ndarray) (kwargs : gmap string pyval)
  (s s' : state) (r : list (list float) * list (list float)) :
  runM (dense_lucaskanade cv2_getStructuringElement cv2_morphologyEx
          cv2_goodFeaturesToTrack cv2_calcOpticalFlowPyrLK np_exp R kwargs) s
  = (Ok r, s') ->
  log s' = log s ++ concat (repeat (frame_pair_calls (read_options kwargs))
                              (nth 0 (shape R) 0%nat - 1)).
Proof.
  intros H.
  assert (HH : hoare (logged (log s))
                 (dense_lucaskanade cv2_getStructuringElement cv2_morphologyEx
                    cv2_goodFeaturesToTrack cv2_calcOpticalFlowPyrLK np_exp R kwargs)
                 (fun _ => logged (log s ++ concat (repeat (frame_pair_calls (read_options kwargs))
                                                      (nth 0 (shape R) 0%nat - 1))))
                 anywhere).
  { unfold dense_lucaskanade.
    quiet log_load_floats.
    eapply hoare_bind; [apply hoare_lift; [auto|]|].
    { intros opts s0 Hc Hs0. exact (conj Hs0 (check_inputs_options _ _ _ _ Hc)). }
    intros opts. apply hoare_pure. intros ->.
    quiet log_frame_loop.
    destruct_tuple.
    quiet_lift. quiet_lift. quiet_lift.
    destruct (append_extra_vectors _ _) as [[[x y] u] v].
    quiet_lift. quiet_lift. quiet_lift. quiet_lift. quiet_lift.
    eapply hoare_weaken; [apply log_ret|intros ? Hs; exact Hs|].
    intros ? s0 Hs0. simpl in Hs0. rewrite Hs0. do 2 f_equal.
    generalize (nth 0 (shape R) 0%nat - 1)%nat. intros c. generalize 0%nat.
    induction c as [|c IH]; intros b; simpl; [reflexivity|]. f_equal. apply IH. }
  specialize (HH s eq_refl). rewrite H in HH. exact HH.
Qed.

End CallSequence.

Lemma opencv_call_sequence_witness :
  let run := runM (dense_lucaskanade demo_getStructuringElement demo_morphologyEx
                     demo_goodFeaturesToTrack demo_calcOpticalFlowPyrLK exp_series demo_R
                     (<["min_nr_samples" := VInt 1]> (<["function" := VStr "nearest"]> ∅)))
               demo_state in
  log run.2
  = log demo_state
    ++ concat (repeat (frame_pair_calls
                         (read_options (<["min_nr_samples" := VInt 1]>
                                          (<["function" := VStr "nearest"]> ∅))))
                 (nth 0 (shape demo_R) 0%nat - 1)).
Proof.
  intros run.
  apply (opencv_call_sequence demo_getStructuringElement demo_morphologyEx
           demo_goodFeaturesToTrack demo_calcOpticalFlowPyrLK exp_series demo_R
           (<["min_nr_samples" := VInt 1]> (<["function" := VStr "nearest"]> ∅))
           demo_state run.2
           ([[PrimFloat.one; PrimFloat.one]; [PrimFloat.one; PrimFloat.one]],
            [[PrimFloat.one; PrimFloat.one]; [PrimFloat.one; PrimFloat.one]])).
  vm_compute. reflexivity.
Defined.

(** * The other modules *)

(** ** simple_advection *)

Lemma check_inputs_shapes (R V : nparray) :
  simple_advection._check_inputs R V = Ok tt <->
  exists m n c, dims R = [m; n] /\ dims V = [c; m; n].
Proof.
  unfold simple_advection._check_inputs. split.
  - destruct (length (dims R) =? 2)%nat eqn:ER; cbn [negb]; [|discriminate].
    destruct (length (dims V) =? 3)%nat eqn:EV; cbn [negb]; [|discriminate].
    destruct (bool_decide (dims R = firstn 2 (skipn 1 (dims V)))) eqn:E;
      cbn [negb]; [|discriminate].
    intros _. apply bool_decide_eq_true_1 in E.
    apply Nat.eqb_eq in EV.
    destruct (dims V) as [|c [|m [|n [|]]]]; try discriminate.
    exists m, n, c. split; [exact E|reflexivity].
  - intros (m & n & c & -> & ->). simpl.
    rewrite bool_decide_eq_true_2 by reflexivity. reflexivity.
Qed.

(** X16. [forecast] returns exactly when [R] has a shape (m,n), [V] a
    shape (c,m,n) with the same [m] and [n], the method name is known
    to [advection.get_method] and the method returns: then it returns what
    the method returns.  The first dimension [c] of [V] is not checked. *)
Theorem forecast_returns_iff
  (advection_get_method : string -> result simple_advection.extrapolator)
  (R V : nparray) (num_timesteps : Z) (extrap_method : string)
  (extrap_kwargs : gmap string pyval) (out : nparray) :
  simple_advection.forecast advection_get_method R V num_timesteps extrap_method
    extrap_kwargs = Ok out
  <-> (exists m n c, dims R = [m; n] /\ dims V = [c; m; n]) /\
      exists method,
        advection_get_method extrap_method = Ok method /\
        method R V num_timesteps extrap_kwargs = Ok out.
Proof.
  unfold simple_advection.forecast. unfold_bind. split.
  - destruct (simple_advection._check_inputs R V) as [[]|e] eqn:E; [|discriminate].
    apply check_inputs_shapes in E.
    destruct (advection_get_method extrap_method) as [method|e]; [|discriminate].
    intros H. split; [exact E|]. exists method. split; [reflexivity|exact H].
  - intros [E (method & Hm & H)].
    apply check_inputs_shapes in E. rewrite E, Hm. exact H.
Qed.

(** ** nowcast_importers *)

Lemma string_app_assoc (a b c : string) :
  ((a ++ b) ++ c = a ++ (b ++ c))%string.
Proof.
  induction a as [|x a IH]; [reflexivity|].
  change (String x ((a ++ b) ++ c) = String x (a ++ (b ++ c)))%string.
  rewrite IH. reflexivity.
Qed.

Section ImporterProperties.

Variable attr : Type.
Variable attr_str : attr -> string.
Variable attr_eq : attr -> string -> bool.

Local Abbreviation convert :=
  (nowcast_importers._convert_grid_mapping_to_proj4 attr attr_str attr_eq).

(** X19. [_convert_grid_mapping_to_proj4] returns [None] exactly when the
    attribute [grid_mapping_name] is present and is not
    ["polar_stereographic"]; without that attribute it raises [KeyError].
    It returns a string exactly when the name is ["polar_stereographic"]
    and the four attributes of the pole, the origin and the false easting
    and northing are present: the string lists them in a fixed order, with
    [+lat_ts] and [+k_0] in between when their attributes are present. *)
Theorem convert_grid_mapping_outcomes (grid_mapping : gmap string attr) (s : string) :
  (convert grid_mapping = Return None
   <-> exists name, grid_mapping !! "grid_mapping_name" = Some name /\
                    attr_eq name "polar_stereographic" = false) /\
  (convert grid_mapping = Throw (KeyError "grid_mapping_name")
   <-> grid_mapping !! "grid_mapping_name" = None) /\
  (convert grid_mapping = Return (Some s)
   <-> exists name lon lat x0 y0,
         grid_mapping !! "grid_mapping_name" = Some name /\
         attr_eq name "polar_stereographic" = true /\
         grid_mapping !! "straight_vertical_longitude_from_pole" = Some lon /\
         grid_mapping !! "latitude_of_projection_origin" = Some lat /\
         grid_mapping !! "false_easting" = Some x0 /\
         grid_mapping !! "false_northing" = Some y0 /\
         s = ("+proj=stere" ++ " +lon_0=" ++ attr_str lon
              ++ " +lat_0=" ++ attr_str lat
              ++ nowcast_importers.optional_parameter attr attr_str grid_mapping
                   "standard_parallel" " +lat_ts="
              ++ nowcast_importers.optional_parameter attr attr_str grid_mapping
                   "scale_factor_at_projection_origin" " +k_0="
              ++ " +x_0=" ++ attr_str x0 ++ " +y_0=" ++ attr_str y0)%string).
Proof.
  unfold nowcast_importers._convert_grid_mapping_to_proj4,
    nowcast_importers.dict_getitem.
  unfold mbind, outcome_bind, mret, outcome_ret.
  destruct (grid_mapping !! "grid_mapping_name") as [name|] eqn:En.
  2:{ split; [|split]; split; try discriminate; try reflexivity.
      - intros (name & H & _). discriminate.
      - intros (name & lon & lat & x0 & y0 & H & _). discriminate. }
  destruct (attr_eq name "polar_stereographic") eqn:Ep.
  - destruct (grid_mapping !! "straight_vertical_longitude_from_pole") as [lon|] eqn:E1;
      [destruct (grid_mapping !! "latitude_of_projection_origin") as [lat|] eqn:E2;
       [destruct (grid_mapping !! "false_easting") as [x0|] eqn:E3;
        [destruct (grid_mapping !! "false_northing") as [y0|] eqn:E4|]|]|];
      (split; [|split]); split; try discriminate;
      try (intros (name' & H & H'); injection H as <-; congruence);
      try (intros (name' & lon' & lat' & x0' & y0' & _ & _ & H1 & H2 & H3 & H4 & _);
           discriminate).
    + intros H. injection H as <-.
      exists name, lon, lat, x0, y0.
      split; [reflexivity|]. split; [exact Ep|].
      repeat (split; [reflexivity|]).
      rewrite !string_app_assoc. reflexivity.
    + intros (name' & lon' & lat' & x0' & y0' & _ & _ & H1 & H2 & H3 & H4 & ->).
      injection H1 as <-. injection H2 as <-. injection H3 as <-. injection H4 as <-.
      rewrite !string_app_assoc. reflexivity.
  - split; [|split]; split; try discriminate.
    + intros _. exists name. split; [reflexivity|exact Ep].
    + reflexivity.
    + intros (name' & lon & lat & x0 & y0 & H & H' & _). injection H as <-. congruence.
Qed.

Variable netcdf4_imported : bool.
Variable dataset : Type.
Variable variable : Type.
Variable timestamps : Type.
Variable netCDF4_Dataset : string -> outcome dataset.
Variable ds_variables : dataset -> gmap string variable.
Variable ncattrs : variable -> gmap string attr.
Variable read_floats : variable -> outcome nparray.
Variable num2date : variable -> outcome timestamps.

(** X20. [import_netcdf_pysteps] never returns: for every file and whatever
    the netCDF4 library answers, the call ends in an exception.  A call
    that gets as far as line 84 raises [NameError] there, as the module
    does not bind the name [np]. *)
Theorem import_netcdf_pysteps_never_returns (filename : string) :
  exists e,
    nowcast_importers.import_netcdf_pysteps attr attr_str attr_eq netcdf4_imported
      dataset variable timestamps netCDF4_Dataset ds_variables ncattrs read_floats
      num2date filename
    = Throw e.
Proof.
  unfold nowcast_importers.import_netcdf_pysteps.
  unfold mbind, outcome_bind, mret, outcome_ret.
  destruct netcdf4_imported; cbn [negb]; [|eexists; reflexivity].
  destruct (netCDF4_Dataset filename) as [ds|e]; [|eexists; reflexivity].
  destruct (nowcast_importers.supported_variable variable (ds_variables ds)) as [R|e];
    [|eexists; reflexivity].
  destruct (read_floats R) as [Rf|e]; [|eexists; reflexivity].
  destruct (ds_variables ds !! "time") as [tv|]; [|eexists; reflexivity].
  destruct (num2date tv) as [ts|e]; [|eexists; reflexivity].
  destruct (ds_variables ds !! "polar_stereographic") as [vn|]; [|eexists; reflexivity].
  destruct (nowcast_importers._convert_grid_mapping_to_proj4 attr attr_str attr_eq
              (ncattrs vn)) as [p|e]; eexists; reflexivity.
Qed.

End ImporterProperties.

(** A grid mapping with string attributes, and a file that holds it with a
    field of one pixel. *)
Example convert_grid_mapping_demo :
  nowcast_importers._convert_grid_mapping_to_proj4 string id String.eqb
    (list_to_map [("grid_mapping_name", "polar_stereographic");
                  ("straight_vertical_longitude_from_pole", "0.0");
                  ("latitude_of_projection_origin", "90.0");
                  ("standard_parallel", "60.0");
                  ("false_easting", "0.0");
                  ("false_northing", "0.0")])
  = Return (Some "+proj=stere +lon_0=0.0 +lat_0=90.0 +lat_ts=60.0 +x_0=0.0 +y_0=0.0").
Proof. vm_compute. reflexivity. Qed.

Example import_netcdf_pysteps_demo :
  nowcast_importers.import_netcdf_pysteps string id String.eqb true
    (gmap string (gmap string string)) (gmap string string) unit
    (fun _ => Return (list_to_map [("precip_intensity", ∅); ("time", ∅)]))
    id id
    (fun _ => Return {| dims := [1; 1]%nat; values := [PrimFloat.one] |})
    (fun _ => Return tt)
    "nowcast.nc"
  = Throw (NameError "np").
Proof. vm_compute. reflexivity. Qed.

(** ** motion *)

Lemma eqb_zero_cases a :
  PrimFloat.eqb a PrimFloat.zero = true ->
  a = PrimFloat.zero \/ a = PrimFloat.neg_zero.
Proof.
  rewrite FloatAxioms.eqb_spec. intros H.
  rewrite <- (SF2Prim_Prim2SF a).
  change (Prim2SF PrimFloat.zero) with (SpecFloat.S754_zero false) in H.
  destruct (Prim2SF a) as [s|s| |s m e];
    try discriminate H; try (destruct s; discriminate H).
  destruct s; [right|left]; reflexivity.
Qed.

(** Zero times a value is a zero again, unless it is not finite. *)
Lemma mul_zero_finite a b :
  a = PrimFloat.zero \/ a = PrimFloat.neg_zero ->
  PrimFloat.is_finite (PrimFloat.mul a b) = true ->
  PrimFloat.mul a b = PrimFloat.zero \/ PrimFloat.mul a b = PrimFloat.neg_zero.
Proof.
  intros Ha. rewrite <- (SF2Prim_Prim2SF (PrimFloat.mul a b)), FloatAxioms.mul_spec.
  destruct Ha as [-> | ->];
    destruct (Prim2SF b) as [s|s| |s m e]; try destruct s;
    intros H; try (vm_compute in H; discriminate);
    first [left; reflexivity | right; reflexivity].
Qed.

Lemma mul_nan_r a : PrimFloat.mul a PrimFloat.nan = PrimFloat.nan.
Proof.
  rewrite <- (SF2Prim_Prim2SF (PrimFloat.mul a PrimFloat.nan)), FloatAxioms.mul_spec.
  destruct (Prim2SF a) as [s|s| |s m e]; reflexivity.
Qed.

Lemma mul_nan_l a : PrimFloat.mul PrimFloat.nan a = PrimFloat.nan.
Proof.
  rewrite <- (SF2Prim_Prim2SF (PrimFloat.mul PrimFloat.nan a)), FloatAxioms.mul_spec.
  reflexivity.
Qed.

Lemma sub_nan_r a : PrimFloat.sub a PrimFloat.nan = PrimFloat.nan.
Proof.
  rewrite <- (SF2Prim_Prim2SF (PrimFloat.sub a PrimFloat.nan)), FloatAxioms.sub_spec.
  destruct (Prim2SF a) as [s|s| |s m e]; reflexivity.
Qed.

(** With no motion the direction of motion is 0/0. *)
Lemma direction_of_zero a b :
  a = PrimFloat.zero \/ a = PrimFloat.neg_zero ->
  b = PrimFloat.zero \/ b = PrimFloat.neg_zero ->
  PrimFloat.div a (speed_of a b) = PrimFloat.nan /\
  PrimFloat.div b (speed_of a b) = PrimFloat.nan.
Proof.
  intros [-> | ->] [-> | ->]; split; reflexivity.
Qed.

Lemma lookup_plane (mn c i : nat) (a : list float) :
  (i < mn)%nat -> motion.plane mn c a !! i = a !! (c * mn + i)%nat.
Proof.
  intros Hi. unfold motion.plane. rewrite lookup_take_lt by exact Hi.
  apply lookup_drop.
Qed.

Lemma length_plane (mn c : nat) (a : list float) :
  ((c + 1) * mn <= length a)%nat -> length (motion.plane mn c a) = mn.
Proof.
  intros H. unfold motion.plane. rewrite length_take, length_drop. nia.
Qed.

Lemma lookup_stack2 (a : list float) (mn i : nat) :
  length a = mn -> (i < mn)%nat ->
  motion.stack2 a a !! i = a !! i /\ motion.stack2 a a !! (mn + i)%nat = a !! i.
Proof.
  intros Ha Hi. unfold motion.stack2. split.
  - apply lookup_app_l. lia.
  - rewrite lookup_app_r by lia. f_equal. lia.
Qed.

(** The arithmetic of [initialize_bps] at a pixel without motion. *)
Lemma perturbation_at_zero (Vs V_pert : list float) (mn i : nat) (a b : float) :
  length Vs = (2 * mn)%nat -> length V_pert = (2 * mn)%nat -> (i < mn)%nat ->
  Vs !! i = Some a -> Vs !! (mn + i)%nat = Some b ->
  a = PrimFloat.zero \/ a = PrimFloat.neg_zero ->
  b = PrimFloat.zero \/ b = PrimFloat.neg_zero ->
  let N := zip_with speed_of (motion.plane mn 0 Vs) (motion.plane mn 1 Vs) in
  let V_n := zip_with PrimFloat.div Vs (motion.stack2 N N) in
  let prod := zip_with PrimFloat.mul V_pert V_n in
  let DP := zip_with PrimFloat.add (motion.plane mn 0 prod) (motion.plane mn 1 prod) in
  let par := zip_with PrimFloat.mul V_n (motion.stack2 DP DP) in
  par !! i = Some PrimFloat.nan /\
  par !! (mn + i)%nat = Some PrimFloat.nan /\
  zip_with PrimFloat.sub V_pert par !! i = Some PrimFloat.nan /\
  zip_with PrimFloat.sub V_pert par !! (mn + i)%nat = Some PrimFloat.nan.
Proof.
  intros LV LP Hi Ha Hb Za Zb N V_n prod DP par.
  destruct (direction_of_zero a b Za Zb) as [Da Db].
  assert (LN : length N = mn).
  { unfold N. rewrite length_zip_with, !length_plane by lia. lia. }
  assert (HN : N !! i = Some (speed_of a b)).
  { unfold N. rewrite lookup_zip_with, !lookup_plane by exact Hi.
    simpl. rewrite Ha. replace (mn + 0 + i)%nat with (mn + i)%nat by lia.
    rewrite Hb. reflexivity. }
  destruct (lookup_stack2 N mn i LN Hi) as [S1 S2].
  assert (Hn1 : V_n !! i = Some PrimFloat.nan).
  { unfold V_n. rewrite lookup_zip_with, Ha, S1, HN. simpl. rewrite Da. reflexivity. }
  assert (Hn2 : V_n !! (mn + i)%nat = Some PrimFloat.nan).
  { unfold V_n. rewrite lookup_zip_with, Hb, S2, HN. simpl. rewrite Db. reflexivity. }
  assert (LVn : length V_n = (2 * mn)%nat).
  { unfold V_n, motion.stack2. rewrite length_zip_with, length_app. lia. }
  destruct (lookup_lt_is_Some_2 V_pert i ltac:(lia)) as [px Hpx].
  destruct (lookup_lt_is_Some_2 V_pert (mn + i) ltac:(lia)) as [py Hpy].
  assert (Hp1 : prod !! i = Some PrimFloat.nan).
  { unfold prod. rewrite lookup_zip_with, Hpx, Hn1. simpl. rewrite mul_nan_r. reflexivity. }
  assert (Hp2 : prod !! (mn + i)%nat = Some PrimFloat.nan).
  { unfold prod. rewrite lookup_zip_with, Hpy, Hn2. simpl. rewrite mul_nan_r. reflexivity. }
  assert (Lprod : length prod = (2 * mn)%nat).
  { unfold prod. rewrite length_zip_with. lia. }
  assert (LD : length DP = mn).
  { unfold DP. rewrite length_zip_with, !length_plane by lia. lia. }
  assert (HD : DP !! i = Some PrimFloat.nan).
  { unfold DP. rewrite lookup_zip_with, !lookup_plane by exact Hi.
    simpl. rewrite Hp1. replace (mn + 0 + i)%nat with (mn + i)%nat by lia.
    rewrite Hp2. reflexivity. }
  destruct (lookup_stack2 DP mn i LD Hi) as [T1 T2].
  assert (Hr1 : par !! i = Some PrimFloat.nan).
  { unfold par. rewrite lookup_zip_with, Hn1, T1, HD. reflexivity. }
  assert (Hr2 : par !! (mn + i)%nat = Some PrimFloat.nan).
  { unfold par. rewrite lookup_zip_with, Hn2, T2, HD. reflexivity. }
  repeat split; try assumption.
  - rewrite lookup_zip_with, Hpx, Hr1. simpl. rewrite sub_nan_r. reflexivity.
  - rewrite lookup_zip_with, Hpy, Hr2. simpl. rewrite sub_nan_r. reflexivity.
Qed.

Section MotionProperties.

Variable rng : Type.
Variable rng_seed : Z -> rng -> rng.
Variable rng_laplace : rng -> float * rng.

Local Abbreviation init := (motion.initialize_bps rng rng_seed rng_laplace).

(** X17. [initialize_bps] touches the random generator exactly when its
    arguments pass the four checks on the shape of [V] and the lengths of
    the parameter tuples: then it seeds the generator, if a seed is given,
    and draws two numbers, also when the call fails afterwards; otherwise
    it raises [ValueError] and the generator is as it was. *)
Theorem initialize_bps_generator (V : nparray) (pixelsperkm timestep : float)
  (p_pert_par p_pert_perp : list float) (rs : rng) (seed : option Z) :
  let out := init V pixelsperkm timestep p_pert_par p_pert_perp rs seed in
  let seeded := match seed with Some z => rng_seed z rs | None => rs end in
  if motion.valid_arguments V p_pert_par p_pert_perp
  then out.2 = (rng_laplace (rng_laplace seeded).2).2
  else out.2 = rs /\ exists msg, out.1 = Throw (Exn (ValueError msg)).
Proof.
  unfold motion.initialize_bps, motion.valid_arguments.
  destruct (length (dims V) =? 3)%nat; cbn [negb andb];
    [|split; [reflexivity|eexists; reflexivity]].
  destruct (nth 0 (dims V) 0 =? 2)%nat; cbn [negb andb];
    [|split; [reflexivity|eexists; reflexivity]].
  destruct (length p_pert_par =? 3)%nat; cbn [negb andb];
    [|split; [reflexivity|eexists; reflexivity]].
  destruct (length p_pert_perp =? 3)%nat; cbn [negb andb];
    [|split; [reflexivity|eexists; reflexivity]].
  destruct (rng_laplace _) as [px r1]. cbn [snd].
  destruct (rng_laplace r1) as [py r2]. cbn [snd].
  destruct (PrimFloat.eqb _ _); [reflexivity|].
  destruct (existsb _ _); reflexivity.
Qed.

(** X18. Where the motion field is zero, the perturbation is undefined: at
    every pixel whose two velocity components are zero, both components of
    [V_pert_par] and of [V_pert_perp] in the perturbator that
    [initialize_bps] returns are NaN, whatever the random draws, the
    resolutions and the parameters are. *)
Theorem zero_motion_perturbation_nan (V : nparray) (pixelsperkm timestep : float)
  (p_pert_par p_pert_perp : list float) (rs rs' : rng) (seed : option Z)
  (P : motion.perturbator rng) (m n i : nat) :
  init V pixelsperkm timestep p_pert_par p_pert_perp rs seed = (Return P, rs') ->
  dims V = [2; m; n]%nat ->
  length (values V) = (2 * (m * n))%nat ->
  (i < m * n)%nat ->
  PrimFloat.eqb (nth i (values V) PrimFloat.nan) PrimFloat.zero = true ->
  PrimFloat.eqb (nth (m * n + i) (values V) PrimFloat.nan) PrimFloat.zero = true ->
  values (motion.V_pert_par P) !! i = Some PrimFloat.nan /\
  values (motion.V_pert_par P) !! (m * n + i)%nat = Some PrimFloat.nan /\
  values (motion.V_pert_perp P) !! i = Some PrimFloat.nan /\
  values (motion.V_pert_perp P) !! (m * n + i)%nat = Some PrimFloat.nan.
Proof.
  intros H Hd Hl Hi Hx Hy.
  unfold motion.initialize_bps in H. rewrite Hd in H.
  cbn [length nth Nat.eqb negb] in H.
  destruct (length p_pert_par =? 3)%nat; cbn [negb] in H; [|discriminate].
  destruct (length p_pert_perp =? 3)%nat; cbn [negb] in H; [|discriminate].
  destruct (rng_laplace _) as [px r1]. destruct (rng_laplace r1) as [py r2].
  destruct (PrimFloat.eqb _ _); [discriminate|].
  set (mn := (m * n)%nat) in *.
  set (scale := fun a : float => PrimFloat.mul a _) in H.
  destruct (existsb _ (map scale (values V))) eqn:Efin; [discriminate|].
  injection H as <- _. cbn [motion.V_pert_par motion.V_pert_perp values].
  assert (Hfin : forall a, In a (map scale (values V)) -> PrimFloat.is_finite a = true).
  { intros a Ha. destruct (PrimFloat.is_finite a) eqn:E; [reflexivity|].
    assert (existsb (fun a => negb (PrimFloat.is_finite a)) (map scale (values V)) = true).
    { apply existsb_exists. exists a. rewrite E. auto. }
    congruence. }
  assert (Hz : forall j, (j < 2 * mn)%nat ->
            PrimFloat.eqb (nth j (values V) PrimFloat.nan) PrimFloat.zero = true ->
            exists a, map scale (values V) !! j = Some a /\
                      (a = PrimFloat.zero \/ a = PrimFloat.neg_zero)).
  { intros j Hj Hzero.
    exists (scale (nth j (values V) PrimFloat.nan)). split.
    - rewrite list_lookup_fmap.
      destruct (nth_lookup_or_length (values V) j PrimFloat.nan) as [-> | Hge];
        [reflexivity|lia].
    - apply mul_zero_finite; [apply eqb_zero_cases; exact Hzero|].
      apply (Hfin (scale (nth j (values V) PrimFloat.nan))).
      apply in_map. apply nth_In. lia. }
  destruct (Hz i ltac:(lia) Hx) as (a & Ha & Za).
  destruct (Hz (mn + i)%nat ltac:(lia) Hy) as (b & Hb & Zb).
  apply (perturbation_at_zero (map scale (values V)) _ mn i a b);
    try assumption.
  - rewrite length_map. exact Hl.
  - unfold motion.stack2. rewrite length_app, !length_map, !repeat_length. lia.
Qed.

End MotionProperties.

Lemma zero_motion_perturbation_nan_witness :
  exists P rs',
    motion.initialize_bps (list float) motion.demo_seed motion.demo_laplace
      motion.demo_V PrimFloat.one (F64.of_Z 5)
      (map F64.of_Z [10; 1; -7]) (map F64.of_Z [5; 1; -2])
      (map F64.of_Z [1; 2; 3]) None = (Return P, rs') /\
    values (motion.V_pert_par P) !! 0%nat = Some PrimFloat.nan /\
    values (motion.V_pert_par P) !! (2 * 2 + 0)%nat = Some PrimFloat.nan /\
    values (motion.V_pert_perp P) !! 0%nat = Some PrimFloat.nan /\
    values (motion.V_pert_perp P) !! (2 * 2 + 0)%nat = Some PrimFloat.nan.
Proof.
  eexists. eexists. split; [vm_compute; reflexivity|].
  eapply (zero_motion_perturbation_nan (list float) motion.demo_seed motion.demo_laplace
            motion.demo_V PrimFloat.one (F64.of_Z 5)
            (map F64.of_Z [10; 1; -7]) (map F64.of_Z [5; 1; -2])
            (map F64.of_Z [1; 2; 3]) _ None _ 2 2 0);
    [vm_compute; reflexivity|reflexivity|reflexivity|simpl; lia
    |vm_compute; reflexivity|vm_compute; reflexivity].
Defined.

(** The same call at the pixels that move: the perturbation is split into
    its parts along and across the motion. *)
Example initialize_bps_demo :
  let out := motion.initialize_bps (list float) motion.demo_seed motion.demo_laplace
               motion.demo_V PrimFloat.one (F64.of_Z 5)
               (map F64.of_Z [10; 1; -7]) (map F64.of_Z [5; 1; -2])
               (map F64.of_Z [1; 2; 3]) None in
  out.2 = [F64.of_Z 3] /\
  match out.1 with
  | Return P =>
      motion.vsf P = F64.of_Z 12 /\
      values (motion.V_pert_par P) !! 2%nat = Some (F64.of_Z 1) /\
      values (motion.V_pert_par P) !! 6%nat = Some (F64.of_Z 0) /\
      values (motion.V_pert_perp P) !! 2%nat = Some (F64.of_Z 0) /\
      values (motion.V_pert_perp P) !! 6%nat = Some (F64.of_Z 2)
  | Throw _ => False
  end.
Proof. vm_compute. repeat split. Qed.
